(** * fetch-linkedin-jobs: the job-listing harvesting pipeline

    A shallow embedding of [scripts/fetch-linkedin-jobs.ts] and the
    properties of its fetcher, parser, classification rules, visa
    detection and search orchestrator.

    Strings are JavaScript strings seen as sequences of code units; the
    model covers code units below 256 (one [ascii] each).  The network is
    a script of responses consumed in order, and every request and every
    politeness delay is recorded in a trace.  Console output and the
    wall-clock stamps ([fetchedAt], [generatedAt]) are left out. *)

From Stdlib Require Import String Ascii List NArith ZArith Bool Arith Lia.
From Stdlib Require Import Sorting.Sorted Permutation DecimalString.
Import ListNotations.
Open Scope string_scope.

(** ** JavaScript string primitives *)

Module Js.

Definition code (c : ascii) : N := N_of_ascii c.

Definition between (lo hi : N) (c : ascii) : bool :=
  ((lo <=? code c) && (code c <=? hi))%N.

(** [String.prototype.toLowerCase], one code unit at a time: A-Z and the
    Latin-1 capitals U+00C0..U+00DE (the sign U+00D7 apart). *)
Definition lowerChar (c : ascii) : ascii :=
  if between 65 90 c || (between 192 222 c && negb (code c =? 215)%N)
  then ascii_of_N (code c + 32) else c.

(** [toUpperCase] on a-z and U+00E0..U+00FE (U+00F7 apart).  The three
    code units below 256 whose capital lies elsewhere (U+00B5, U+00DF,
    U+00FF) are kept: the program only capitalises the first letter of
    its own lower-case country names. *)
Definition upperChar (c : ascii) : ascii :=
  if between 97 122 c || (between 224 254 c && negb (code c =? 247)%N)
  then ascii_of_N (code c - 32) else c.

(** White space and line terminators ([\s], [trim]). *)
Definition isSpace (c : ascii) : bool :=
  between 9 13 c || (code c =? 32)%N || (code c =? 160)%N.

(** Word characters of [\b]: [A-Za-z0-9_]. *)
Definition isWord (c : ascii) : bool :=
  between 97 122 c || between 65 90 c || between 48 57 c || (code c =? 95)%N.

Fixpoint smap (f : ascii -> ascii) (s : string) : string :=
  match s with
  | EmptyString => EmptyString
  | String c s' => String (f c) (smap f s')
  end.

Definition toLowerCase (s : string) : string := smap lowerChar s.
Definition toUpperCase (s : string) : string := smap upperChar s.

Definition startsWith (s prefix : string) : bool := String.prefix prefix s.

(** [s.includes(kw)] *)
Fixpoint includes (s kw : string) : bool :=
  startsWith s kw ||
  match s with
  | EmptyString => false
  | String _ s' => includes s' kw
  end.

(** [s.indexOf(kw)], [-1] when absent. *)
Fixpoint indexOfFrom (i : Z) (s kw : string) : Z :=
  if startsWith s kw then i
  else match s with
       | EmptyString => (-1)%Z
       | String _ s' => indexOfFrom (i + 1) s' kw
       end.

Definition indexOf (s kw : string) : Z := indexOfFrom 0 s kw.

Definition len (s : string) : Z := Z.of_nat (String.length s).

(** [s.slice(start, end)] with JavaScript's treatment of negative and
    out-of-range indices. *)
Definition clampIndex (n i : Z) : Z :=
  (if i <? 0 then Z.max 0 (n + i) else Z.min i n)%Z.

Definition slice (s : string) (first last : Z) : string :=
  let a := clampIndex (len s) first in
  let b := clampIndex (len s) last in
  substring (Z.to_nat a) (Z.to_nat (b - a)) s.

Definition sliceFrom (s : string) (first : Z) : string :=
  slice s first (len s).

Definition charAt (s : string) (i : nat) : string := substring i 1 s.

Fixpoint rev_string (acc s : string) : string :=
  match s with
  | EmptyString => acc
  | String c s' => rev_string (String c acc) s'
  end.

Definition reverse (s : string) : string := rev_string EmptyString s.

Fixpoint trimStart (s : string) : string :=
  match s with
  | String c s' => if isSpace c then trimStart s' else s
  | EmptyString => EmptyString
  end.

Definition trimEnd (s : string) : string := reverse (trimStart (reverse s)).

Definition trim (s : string) : string := trimEnd (trimStart s).

(** [s.split(sep)] for a non-empty separator: the pieces between the
    leftmost non-overlapping occurrences of [sep].  [skip] counts the
    code units of an occurrence still to be dropped; [cur] is the current
    piece, reversed. *)
Fixpoint splitAux (sep : string) (skip : nat) (cur : string) (s : string)
  : list string :=
  match s with
  | EmptyString => [reverse cur]
  | String c s' =>
      match skip with
      | S k => splitAux sep k cur s'
      | O =>
          if startsWith s sep
          then reverse cur :: splitAux sep (String.length sep - 1) EmptyString s'
          else splitAux sep O (String c cur) s'
      end
  end.

Definition split (s sep : string) : list string := splitAux sep 0 EmptyString s.

(** [Array.prototype.pop] read as "the last element, if any". *)
Fixpoint pop {A : Type} (l : list A) : option A :=
  match l with
  | [] => None
  | [x] => Some x
  | _ :: l' => pop l'
  end.

(** [Array.prototype.join] *)
Fixpoint join (sep : string) (l : list string) : string :=
  match l with
  | [] => EmptyString
  | [x] => x
  | x :: l' => x ++ sep ++ join sep l'
  end.

(** [Array.prototype.find] *)
Fixpoint find {A : Type} (p : A -> bool) (l : list A) : option A :=
  match l with
  | [] => None
  | x :: l' => if p x then Some x else find p l'
  end.

(** [a ?? b] *)
Definition orElse {A : Type} (o : option A) (d : A) : A :=
  match o with Some x => x | None => d end.

Definition nonEmpty (s : string) : bool :=
  match s with EmptyString => false | _ => true end.

End Js.

(** ** Regular expressions

    A backtracking matcher with the priorities of the ECMAScript one:
    alternatives are tried left to right, repetition is greedy and an
    iteration that consumes nothing is refused, the search starts at the
    leftmost position. *)

Module Re.

Inductive regex : Type :=
| Eps : regex
| Chr : (ascii -> bool) -> regex
| Cat : regex -> regex -> regex
| Alt : regex -> regex -> regex
| Star : regex -> regex
| Grp : nat -> regex -> regex
| Eoi : regex
| Wb : regex.

Definition caps : Type := list (nat * string).

Definition consumed (s s' : string) : string :=
  substring 0 (String.length s - String.length s') s.

Definition wordBefore (prev : option ascii) : bool :=
  match prev with Some c => Js.isWord c | None => false end.

Definition wordAt (s : string) : bool :=
  match s with String c _ => Js.isWord c | EmptyString => false end.

Section Matcher.
Context {R : Type}.

Definition cont : Type := option ascii -> string -> caps -> option R.

(** [run r prev s cs k]: match [r] at the cursor ([prev] is the code
    unit before it, [s] what follows), then go on with [k]. *)
Fixpoint run (r : regex) (prev : option ascii) (s : string) (cs : caps)
         (k : cont) {struct r} : option R :=
  match r with
  | Eps => k prev s cs
  | Chr p =>
      match s with
      | String c s' => if p c then k (Some c) s' cs else None
      | EmptyString => None
      end
  | Cat r1 r2 => run r1 prev s cs (fun p' s' cs' => run r2 p' s' cs' k)
  | Alt r1 r2 =>
      match run r1 prev s cs k with
      | Some x => Some x
      | None => run r2 prev s cs k
      end
  | Star r1 =>
      (fix loop (fuel : nat) (prev : option ascii) (s : string) (cs : caps)
           {struct fuel} : option R :=
         match fuel with
         | O => k prev s cs
         | S fuel' =>
             match run r1 prev s cs
                     (fun p' s' cs' =>
                        if Nat.ltb (String.length s') (String.length s)
                        then loop fuel' p' s' cs' else None) with
             | Some x => Some x
             | None => k prev s cs
             end
         end) (String.length s) prev s cs
  | Grp n r1 =>
      run r1 prev s cs (fun p' s' cs' => k p' s' ((n, consumed s s') :: cs'))
  | Eoi =>
      match s with
      | EmptyString => k prev s cs
      | String _ _ => None
      end
  | Wb => if xorb (wordBefore prev) (wordAt s) then k prev s cs else None
  end.
End Matcher.

(** The result of [RegExp.prototype.exec]: where the match starts, the
    matched text and the captures. *)
Record found : Type := mkFound { index : nat; whole : string; groups : caps }.

Fixpoint execFrom (r : regex) (i : nat) (prev : option ascii) (s : string)
  : option found :=
  match run r prev s [] (fun _ s' cs => Some (s', cs)) with
  | Some (s', cs) => Some (mkFound i (consumed s s') cs)
  | None =>
      match s with
      | String c s' => execFrom r (S i) (Some c) s'
      | EmptyString => None
      end
  end.

(** [s.match(r)] for a regex without the [g] flag. *)
Definition exec (r : regex) (s : string) : option found := execFrom r 0 None s.

(** [r.test(s)] *)
Definition test (r : regex) (s : string) : bool :=
  match exec r s with Some _ => true | None => false end.

(** Capture [n] of a match ([m[n]]). *)
Fixpoint lookup (n : nat) (cs : caps) : string :=
  match cs with
  | [] => EmptyString
  | (m, v) :: cs' => if Nat.eqb n m then v else lookup n cs'
  end.

Definition group (n : nat) (m : found) : string := lookup n (groups m).

(** [s.replace(r, rep)] with the [g] flag, for an [r] that never matches
    the empty string. *)
Fixpoint replaceAll (fuel : nat) (r : regex) (rep : string)
         (prev : option ascii) (s : string) : string :=
  match fuel with
  | O => s
  | S fuel' =>
      match execFrom r 0 prev s with
      | None => s
      | Some m =>
          let stop := index m + String.length (whole m) in
          let rest := substring stop (String.length s - stop) s in
          let prev' :=
            match stop with
            | O => prev
            | S j => String.get j s
            end in
          substring 0 (index m) s ++ rep ++ replaceAll fuel' r rep prev' rest
      end
  end.

Definition replace (r : regex) (rep : string) (s : string) : string :=
  replaceAll (S (String.length s)) r rep None s.

(** Pattern combinators. *)
Definition chr (c : ascii) : regex := Chr (Ascii.eqb c).
Definition chrI (c : ascii) : regex :=
  Chr (fun x => Ascii.eqb (Js.lowerChar x) (Js.lowerChar c)).
Definition notChr (c : ascii) : regex := Chr (fun x => negb (Ascii.eqb c x)).
Definition plus (r : regex) : regex := Cat r (Star r).
Definition opt (r : regex) : regex := Alt r Eps.

Fixpoint lit (s : string) : regex :=
  match s with
  | EmptyString => Eps
  | String c s' => Cat (chr c) (lit s')
  end.

(** A literal under the [i] flag. *)
Fixpoint litI (s : string) : regex :=
  match s with
  | EmptyString => Eps
  | String c s' => Cat (chrI c) (litI s')
  end.

Fixpoint cat (l : list regex) : regex :=
  match l with
  | [] => Eps
  | [r] => r
  | r :: l' => Cat r (cat l')
  end.

Fixpoint alt (l : list regex) : regex :=
  match l with
  | [] => Chr (fun _ => false)
  | [r] => r
  | r :: l' => Alt r (alt l')
  end.

End Re.

(** ** Data model *)

(** [type VisaStatus = "Yes" | "No" | "Not mentioned"] *)
Inductive VisaStatus : Type := Yes | No | NotMentioned.

Module SearchConfig.
Record t : Type := mk {
  country : string;
  locationParam : string;
  keywords : string;
  label : string;
  maxJobs : Z
}.
End SearchConfig.

Module RawJob.
Record t : Type := mk {
  title : string;
  company : string;
  jobUrl : string;
  companyUrl : option string;
  locationLine : string;
  postedText : option string;
  metaTags : list string;
  countryGuess : string;
  search : SearchConfig.t
}.
End RawJob.

Module Visa.
Record t : Type := mk {
  status : VisaStatus;
  evidence : option string
}.
End Visa.

(** What [detectVisa] returns. *)
Module VisaInfo.
Record t : Type := mk {
  status : VisaStatus;
  evidence : option string;
  detailText : string
}.
End VisaInfo.

Module JobEntry.
Record t : Type := mk {
  id : string;
  title : string;
  company : string;
  applyUrl : string;
  companyUrl : option string;
  location : string;
  country : string;
  posted : string;
  meta : list string;
  matchReasons : list string;
  visa : Visa.t;
  searchLabel : string;
  searchKeywords : string;
  source : string
}.
End JobEntry.

Definition SEARCHES : list SearchConfig.t := [
  SearchConfig.mk "Belgium" "Belgium" "digital marketing"
    "Digital Marketing (Belgium)" 4;
  SearchConfig.mk "Belgium" "Brussels, Brussels Region, Belgium"
    "social media manager" "Social Media Manager (Belgium)" 4;
  SearchConfig.mk "Ireland" "Dublin, County Dublin, Ireland"
    "digital marketing manager" "Digital Marketing Manager (Ireland)" 4;
  SearchConfig.mk "Ireland" "Dublin, County Dublin, Ireland"
    "social media specialist" "Social Media Specialist (Ireland)" 4;
  SearchConfig.mk "Italy" "Milan, Lombardy, Italy" "digital marketing"
    "Digital Marketing (Italy)" 5;
  SearchConfig.mk "Italy" "Rome, Lazio, Italy" "content creator"
    "Content Creator (Italy)" 5;
  SearchConfig.mk "Netherlands" "Netherlands" "digital marketing"
    "Digital Marketing (Netherlands)" 6;
  SearchConfig.mk "Netherlands" "Amsterdam, North Holland, Netherlands"
    "content marketer" "Content Marketer (Netherlands)" 4;
  SearchConfig.mk "United Kingdom" "United Kingdom"
    "digital marketing executive" "Digital Marketing Executive (UK)" 6;
  SearchConfig.mk "United Kingdom" "United Kingdom"
    "content creator social media" "Content Creator / Social Media (UK)" 5
].

Definition MAX_START : Z := 50.

(** ** The result map

    [JOBS : Map<string, JobEntry>]: a JavaScript [Map] iterates in
    insertion order, so it is an association list with the oldest key
    first; [set] on a key already there replaces the value in place. *)

Module JobMap.

Definition t : Type := list (string * JobEntry.t).

Definition empty : t := [].

Fixpoint has (m : t) (k : string) : bool :=
  match m with
  | [] => false
  | (k', _) :: m' => String.eqb k' k || has m' k
  end.

Fixpoint set (m : t) (k : string) (v : JobEntry.t) : t :=
  match m with
  | [] => [(k, v)]
  | (k', v') :: m' =>
      if String.eqb k' k then (k', v) :: m' else (k', v') :: set m' k v
  end.

Definition size (m : t) : Z := Z.of_nat (List.length m).

Definition values (m : t) : list JobEntry.t := map snd m.

Definition keys (m : t) : list string := map fst m.

End JobMap.

(** ** The network and the clock *)

Record Response : Type := mkResponse {
  status : Z;
  statusText : string;
  body : string
}.

(** [response.ok] *)
Definition ok (r : Response) : bool :=
  ((200 <=? status r) && (status r <=? 299))%Z.

(** What one call of [fetch] yields: a response, or a rejected promise
    (the request could not be made). *)
Inductive Reply : Type :=
| Replied (r : Response)
| Rejected.

Inductive Event : Type :=
| Fetch (url : string)
| Delay (ms : Z).

(** The replies still to come, in order, and what the run has done so
    far, latest first.  Once the script is used up a further request is
    rejected. *)
Record World : Type := mkWorld {
  pending : list Reply;
  trace : list Event
}.

Inductive FetchError : Type :=
| RetriesExhausted (url : string)
| HttpError (url : string) (status : Z) (statusText : string)
| NetworkError (url : string).

Inductive Outcome (A : Type) : Type :=
| Returned (a : A)
| Threw (e : FetchError).
Arguments Returned {A} a.
Arguments Threw {A} e.

(** [await delay(ms)] *)
Definition delay (ms : Z) (w : World) : World :=
  mkWorld (pending w) (Delay ms :: trace w).

(** ** Rate-limited fetcher *)

(** [/HTTP ERROR 429/i] and [/Too Many Requests/i] *)
Definition httpError429Re : Re.regex := Re.litI "HTTP ERROR 429".
Definition tooManyRequestsRe : Re.regex := Re.litI "Too Many Requests".

Definition rateLimitedBody (payload : string) : bool :=
  Re.test httpError429Re payload || Re.test tooManyRequestsRe payload.

(** [fetchText(url, attempt)].  Each call makes one request, so the
    recursion follows the script of replies; [log] is the trace so far. *)
Fixpoint fetchTextOn (url : string) (attempt : Z) (script : list Reply)
         (log : list Event) : Outcome string * World :=
  match script with
  | [] => (Threw (NetworkError url), mkWorld [] (Fetch url :: log))
  | Rejected :: rest =>
      (Threw (NetworkError url), mkWorld rest (Fetch url :: log))
  | Replied response :: rest =>
      let log1 := Fetch url :: log in
      if (status response =? 429)%Z then
        if (attempt >? 4)%Z then
          (Threw (RetriesExhausted url), mkWorld rest log1)
        else
          let waitMs := (3000 * attempt)%Z in
          fetchTextOn url (attempt + 1) rest (Delay waitMs :: log1)
      else
        let payload := body response in
        if (status response =? 429)%Z || rateLimitedBody payload then
          if (attempt >? 4)%Z then
            (Threw (RetriesExhausted url), mkWorld rest log1)
          else
            let waitMs := (4000 * attempt)%Z in
            fetchTextOn url (attempt + 1) rest (Delay waitMs :: log1)
        else if negb (ok response) then
          (Threw (HttpError url (status response) (statusText response)),
           mkWorld rest log1)
        else (Returned payload, mkWorld rest log1)
  end.

Definition fetchTextAt (url : string) (attempt : Z) (w : World)
  : Outcome string * World :=
  fetchTextOn url attempt (pending w) (trace w).

(** [fetchText(url)]: [attempt] defaults to 1. *)
Definition fetchText (url : string) (w : World) : Outcome string * World :=
  fetchTextAt url 1 w.

(** The number of requests recorded in a trace. *)
Fixpoint requests (log : list Event) : Z :=
  match log with
  | [] => 0
  | Fetch _ :: log' => 1 + requests log'
  | Delay _ :: log' => requests log'
  end.

(** ** Markdown job parser *)

Definition LF : ascii := ascii_of_nat 10.

(** The marker after which the proxy's markdown begins. *)
Definition SENTINEL : string := "Markdown Content:".

(** The tail [\[([^\]]+)\]\((https?:\/\/[^\)]+)\)] shared by the two
    link patterns: capture 1 is the link text, capture 2 the URL. *)
Definition linkRe : Re.regex :=
  Re.cat [Re.lit "[";
          Re.Grp 1 (Re.plus (Re.notChr "]"));
          Re.lit "](";
          Re.Grp 2 (Re.cat [Re.lit "http"; Re.opt (Re.chr "s"); Re.lit "://";
                            Re.plus (Re.notChr ")")]);
          Re.lit ")"].

(** [/\*   \[([^\]]+)\]\((https?:\/\/[^\)]+)\)/] *)
Definition titleRe : Re.regex := Re.Cat (Re.lit "*   ") linkRe.

(** [/#### \[([^\]]+)\]\((https?:\/\/[^\)]+)\)/] *)
Definition companyRe : Re.regex := Re.Cat (Re.lit "#### ") linkRe.

(** [/\n\n ([^\n]+)\n/] *)
Definition metaRe : Re.regex :=
  Re.cat [Re.chr LF; Re.chr LF; Re.chr " ";
          Re.Grp 1 (Re.plus (Re.notChr LF)); Re.chr LF].

(** [/\s+/g] *)
Definition spacesRe : Re.regex := Re.plus (Re.Chr Js.isSpace).

(** [/\b(day|hour|week|month)s?\s+ago\b/i] *)
Definition agoRe : Re.regex :=
  Re.cat [Re.Wb;
          Re.Grp 1 (Re.alt [Re.litI "day"; Re.litI "hour"; Re.litI "week";
                            Re.litI "month"]);
          Re.opt (Re.chrI "s"); spacesRe; Re.litI "ago"; Re.Wb].

(** [/\b(today|yesterday)\b/i] *)
Definition todayRe : Re.regex :=
  Re.cat [Re.Wb; Re.Grp 1 (Re.alt [Re.litI "today"; Re.litI "yesterday"]);
          Re.Wb].

(** [/, *([A-Za-z ]+)$/] *)
Definition lastSegmentRe : Re.regex :=
  Re.cat [Re.chr ","; Re.Star (Re.chr " ");
          Re.Grp 1 (Re.plus (Re.Chr (fun c =>
            Js.between 65 90 c || Js.between 97 122 c || Ascii.eqb c " ")));
          Re.Eoi].

Definition capitalize (word : string) : string :=
  Js.toUpperCase (Js.charAt word 0) ++ Js.sliceFrom word 1.

Definition countries : list string :=
  ["united kingdom"; "netherlands"; "belgium"; "ireland"; "italy";
   "tunisia"; "united states"; "france"; "germany"].

Definition inferCountry (location : string) : option string :=
  let lower := Js.toLowerCase location in
  match Js.find (fun country => Js.includes lower country) countries with
  | Some country => Some (Js.join " " (map capitalize (Js.split country " ")))
  | None =>
      if Re.test lastSegmentRe location
      then option_map Js.trim (Js.pop (Js.split location ","))
      else None
  end.

(** One iteration of the loop over the blocks: [None] is [continue]. *)
Definition parseBlock (search : SearchConfig.t) (block : string)
  : option RawJob.t :=
  match Re.exec titleRe block with
  | None => None
  | Some titleMatch =>
      let jobUrl := Re.group 2 titleMatch in
      if negb (Js.includes jobUrl "linkedin.com/jobs/view") then None
      else
        match Re.exec companyRe block with
        | None => None
        | Some companyMatch =>
            let rawMeta :=
              match Re.exec metaRe block with
              | Some metaMatch => Js.trim (Re.group 1 metaMatch)
              | None => EmptyString
              end in
            let metaParts :=
              filter Js.nonEmpty
                (map (fun item => Js.trim (Re.replace spacesRe " " item))
                     (Js.split rawMeta "  ")) in
            (* metaParts.shift() ?? search.country *)
            let location :=
              match metaParts with
              | first :: _ => first
              | [] => SearchConfig.country search
              end in
            let metaParts := tl metaParts in
            let postedText :=
              Js.orElse (Js.find (Re.test agoRe) metaParts)
                (Js.orElse (Js.find (Re.test todayRe) metaParts) EmptyString) in
            Some (RawJob.mk
                    (Js.trim (Re.group 1 titleMatch))
                    (Js.trim (Re.group 1 companyMatch))
                    jobUrl
                    (Some (Re.group 2 companyMatch))
                    location
                    (Some postedText)
                    metaParts
                    (Js.orElse (inferCountry location)
                               (SearchConfig.country search))
                    search)
        end
  end.

Fixpoint mapi {A B : Type} (f : A -> nat -> B) (i : nat) (l : list A)
  : list B :=
  match l with
  | [] => []
  | x :: l' => f x i :: mapi f (S i) l'
  end.

Fixpoint filterMap {A B : Type} (f : A -> option B) (l : list A) : list B :=
  match l with
  | [] => []
  | x :: l' =>
      match f x with
      | Some y => y :: filterMap f l'
      | None => filterMap f l'
      end
  end.

(** The list items of the markdown that follows the sentinel. *)
Definition blocksOf (cleaned : string) : list string :=
  filter (fun block => Js.startsWith block "*")
    (mapi (fun block index =>
             match index with
             | O => Js.trim block
             | S _ => "*   " ++ Js.trim block
             end)
          0 (Js.split cleaned (String LF "*   "))).

(** The body of [parseMarkdown] once [cleaned] is known to be a
    non-empty string. *)
Definition parseCleaned (cleaned : string) (search : SearchConfig.t)
  : list RawJob.t :=
  filterMap (parseBlock search) (blocksOf cleaned).

Definition parseMarkdown (markdown : string) (search : SearchConfig.t)
  : list RawJob.t :=
  match Js.pop (Js.split markdown SENTINEL) with
  | None => []
  | Some EmptyString => []
  | Some cleaned => parseCleaned cleaned search
  end.

(** ** Classification rules *)

Definition isRemote (meta : list string) (location : string) : bool :=
  let text := Js.toLowerCase (location ++ " " ++ Js.join " " meta) in
  Js.includes text "remote" || Js.includes text "work from home".

Definition required : list string :=
  ["marketing"; "content"; "social"; "video"; "digital"; "creative";
   "communications"; "community"; "seo"; "brand"].

Definition excluded : list string :=
  ["engineer"; "engineering"; "developer"; "scientist"; "medical writer";
   "nurse"; "physician"; "chemist"].

Definition isRelevantTitle (title : string) : bool :=
  let normalized := Js.toLowerCase title in
  if negb (existsb (fun keyword => Js.includes normalized keyword) required)
  then false
  else if existsb (fun keyword => Js.includes normalized keyword) excluded
  then false
  else true.

(** ** Visa evidence extractor *)

(** [/(visa (sponsorship|support|assistance|provided|relocation)|work permit support|sponsor your visa)/] *)
Definition positiveRe : Re.regex :=
  Re.Grp 1 (Re.alt [
    Re.Cat (Re.lit "visa ")
      (Re.Grp 2 (Re.alt [Re.lit "sponsorship"; Re.lit "support";
                         Re.lit "assistance"; Re.lit "provided";
                         Re.lit "relocation"]));
    Re.lit "work permit support";
    Re.lit "sponsor your visa"]).

(** [/(no visa sponsorship|without sponsorship|must have (?:eu )?work permit|not provide sponsorship)/] *)
Definition negativeRe : Re.regex :=
  Re.Grp 1 (Re.alt [
    Re.lit "no visa sponsorship";
    Re.lit "without sponsorship";
    Re.cat [Re.lit "must have "; Re.opt (Re.lit "eu "); Re.lit "work permit"];
    Re.lit "not provide sponsorship"]).

(** [/(work permit|right to work)/] *)
Definition permitRe : Re.regex :=
  Re.Grp 1 (Re.alt [Re.lit "work permit"; Re.lit "right to work"]).

Definition extractEvidence (text keyword : string) : option string :=
  let clean := Re.replace spacesRe " " text in
  let index := Js.indexOf (Js.toLowerCase clean) (Js.toLowerCase keyword) in
  if (index =? -1)%Z then None
  else
    let first := Z.max 0 (index - 160) in
    let last := Z.min (Js.len clean) (index + 200) in
    Some (Js.trim (Js.slice clean first last)).

(** What [detectVisa] does with the fetched text. *)
Definition classifyVisa (text : string) : VisaInfo.t :=
  let body := Js.orElse (Js.pop (Js.split text SENTINEL)) text in
  let lower := Js.toLowerCase body in
  match Re.exec positiveRe lower with
  | Some positiveMatch =>
      VisaInfo.mk Yes (extractEvidence body (Re.whole positiveMatch)) body
  | None =>
      match Re.exec negativeRe lower with
      | Some negativeMatch =>
          VisaInfo.mk No (extractEvidence body (Re.whole negativeMatch)) body
      | None =>
          match Re.exec permitRe lower with
          | Some permitMatch =>
              VisaInfo.mk NotMentioned
                (extractEvidence body (Re.whole permitMatch)) body
          | None => VisaInfo.mk NotMentioned None body
          end
      end
  end.

Definition detectVisa (jobUrl : string) (w : World)
  : Outcome VisaInfo.t * World :=
  let proxyUrl := "https://r.jina.ai/" ++ jobUrl in
  match fetchText proxyUrl w with
  | (Returned text, w') => (Returned (classifyVisa text), w')
  | (Threw e, w') => (Threw e, w')
  end.

(** ** Match-reason synthesizer *)

(** [Set.prototype.add]: a set keeps its members in insertion order. *)
Definition setAdd (reasons : list string) (reason : string) : list string :=
  if existsb (String.eqb reason) reasons then reasons
  else (reasons ++ [reason])%list.

Definition skillRules : list (list string * string) := [
  (["social media"; "social-media"; "instagram"; "tiktok"; "facebook";
    "x (formerly twitter)"; "community manager"],
   "Direct social media and community management responsibilities");
  (["content creation"; "content strategy"; "copywriting"; "storytelling";
    "blog"; "newsletter"],
   "High volume content creation and storytelling focus");
  (["video"; "filming"; "videography"; "premiere pro"; "after effects";
    "motion graphics"],
   "Video production/editing skills explicitly requested");
  (["wordpress"; "cms"; "content management system"],
   "WordPress / CMS publishing experience highlighted");
  (["seo"; "search engine"; "organic traffic"; "keyword research"],
   "SEO optimisation responsibilities included");
  (["campaign"; "go-to-market"; "marketing campaign"; "campaign planning"],
   "Owns campaign planning and execution");
  (["adobe"; "photoshop"; "illustrator"; "lightroom"; "graphic design"],
   "Graphic design & Adobe Creative Suite skills required");
  (["video editing"; "davinci resolve"; "final cut"],
   "Hands-on video editing deliverables");
  (["analytics"; "google analytics"; "reporting"; "data driven"],
   "Performance analytics & reporting responsibilities")
].

Definition buildMatchReasons (raw : RawJob.t) (detailText : string)
  : list string :=
  let reasons :=
    setAdd [] ("Matches " ++ SearchConfig.label (RawJob.search raw)) in
  let corpus := Js.toLowerCase (RawJob.title raw ++ " " ++ detailText) in
  fold_left
    (fun reasons rule =>
       if existsb (fun kw => Js.includes corpus kw) (fst rule)
       then setAdd reasons (snd rule) else reasons)
    skillRules reasons.

(** ** Search orchestrator *)

(** [countByCountry(country)], the loop over [JOBS.values()]. *)
Fixpoint countFrom (total : Z) (lowerCountry : string)
         (jobs : list JobEntry.t) : Z :=
  match jobs with
  | [] => total
  | job :: rest =>
      if Js.includes (Js.toLowerCase (JobEntry.country job)) lowerCountry
      then countFrom (total + 1) lowerCountry rest
      else countFrom total lowerCountry rest
  end.

Definition countByCountry (JOBS : JobMap.t) (country : string) : Z :=
  countFrom 0 (Js.toLowerCase country) (JobMap.values JOBS).

(** [URLSearchParams.prototype.toString]: the form encoding of the
    UTF-8 bytes of a string. *)
Definition hexDigit (n : N) : ascii :=
  match String.get (N.to_nat n) "0123456789ABCDEF" with
  | Some c => c
  | None => "0"%char
  end.

Definition percent (byte : N) : string :=
  String "%" (String (hexDigit (byte / 16)) (String (hexDigit (byte mod 16)) "")).

Definition formSafe (c : ascii) : bool :=
  Js.between 48 57 c || Js.between 65 90 c || Js.between 97 122 c ||
  existsb (Ascii.eqb c) ["*"; "-"; "."; "_"]%char.

Definition formEncodeUnit (c : ascii) : string :=
  let n := Js.code c in
  if (n =? 32)%N then "+"
  else if formSafe c then String c ""
  else if (n <? 128)%N then percent n
  else percent (192 + n / 64) ++ percent (128 + n mod 64).

Fixpoint formEncode (s : string) : string :=
  match s with
  | EmptyString => EmptyString
  | String c s' => formEncodeUnit c ++ formEncode s'
  end.

Definition searchParams (params : list (string * string)) : string :=
  Js.join "&"
    (map (fun kv => formEncode (fst kv) ++ "=" ++ formEncode (snd kv)) params).

(** [start.toString()] *)
Definition numberToString (n : Z) : string :=
  DecimalString.NilZero.string_of_int (Z.to_int n).

Definition searchUrl (search : SearchConfig.t) (start : Z) : string :=
  "https://r.jina.ai/https://www.linkedin.com/jobs-guest/jobs/api/seeMoreJobPostings/search?"
  ++ searchParams [("keywords", SearchConfig.keywords search);
                   ("location", SearchConfig.locationParam search);
                   ("f_TPR", "r604800");
                   ("f_WT", "2");
                   ("start", numberToString start)].

(** [raw.jobUrl.split("?")[0]] *)
Definition canonicalUrl (jobUrl : string) : string :=
  hd EmptyString (Js.split jobUrl "?").

(** [raw.postedText || "Recently posted"] *)
Definition postedLabel (postedText : option string) : string :=
  match postedText with
  | Some (String c s) => String c s
  | _ => "Recently posted"
  end.

(** The value substituted when [detectVisa] throws. *)
Definition visaFallback : VisaInfo.t := VisaInfo.mk NotMentioned None EmptyString.

(** The [JobEntry] built for an accepted listing. *)
Definition makeEntry (raw : RawJob.t) (visaInfo : VisaInfo.t) : JobEntry.t :=
  let canonical := canonicalUrl (RawJob.jobUrl raw) in
  let reasons := buildMatchReasons raw (VisaInfo.detailText visaInfo) in
  JobEntry.mk
    canonical
    (RawJob.title raw)
    (RawJob.company raw)
    canonical
    (RawJob.companyUrl raw)
    (RawJob.locationLine raw)
    (RawJob.countryGuess raw)
    (postedLabel (RawJob.postedText raw))
    (RawJob.metaTags raw)
    reasons
    (Visa.mk (VisaInfo.status visaInfo) (VisaInfo.evidence visaInfo))
    (SearchConfig.label (RawJob.search raw))
    (SearchConfig.keywords (RawJob.search raw))
    "LinkedIn".

(** How one iteration of the loop over the listings of a page ends. *)
Inductive Control : Type :=
| Continue   (* on to the next listing *)
| Break      (* leave the page *)
| Return.    (* leave [processSearch] *)

(** The six skip filters, in the order of the source. *)
Definition skipped (search : SearchConfig.t) (JOBS : JobMap.t) (raw : RawJob.t)
  : bool :=
  let canonical := canonicalUrl (RawJob.jobUrl raw) in
  if Js.includes (Js.toLowerCase (RawJob.title raw)) "remote" then true
  else if isRemote (RawJob.metaTags raw) (RawJob.locationLine raw) then true
  else if negb (isRelevantTitle (RawJob.title raw)) then true
  else if Js.includes (Js.toLowerCase (RawJob.company raw)) "twine" then true
  else if JobMap.has JOBS canonical then true
  else if negb (Js.includes (Js.toLowerCase (RawJob.countryGuess raw))
                            (Js.toLowerCase (SearchConfig.country search)))
  then true
  else false.

(** The [try]/[catch] around [detectVisa]. *)
Definition visaOrFallback (jobUrl : string) (w : World) : VisaInfo.t * World :=
  match detectVisa jobUrl w with
  | (Returned visaInfo, w') => (visaInfo, w')
  | (Threw _, w') => (visaFallback, w')
  end.

(** The body of the loop over the listings of a page. *)
Definition processListing (search : SearchConfig.t) (raw : RawJob.t)
           (JOBS : JobMap.t) (w : World) : Control * JobMap.t * World :=
  if skipped search JOBS raw then (Continue, JOBS, w)
  else if (JobMap.size JOBS >=? 200)%Z then (Break, JOBS, w)
  else
    let w1 := delay 800 w in
    let '(visaInfo, w2) := visaOrFallback (RawJob.jobUrl raw) w1 in
    let entry := makeEntry raw visaInfo in
    let JOBS' := JobMap.set JOBS (JobEntry.id entry) entry in
    if (countByCountry JOBS' (SearchConfig.country search)
        >=? SearchConfig.maxJobs search)%Z
    then (Return, JOBS', w2)
    else (Continue, JOBS', w2).

(** [for (const raw of parsed)]: [Continue] when the loop ran through
    all the listings, [Break] or [Return] when it was left early. *)
Fixpoint processListings (search : SearchConfig.t) (parsed : list RawJob.t)
         (JOBS : JobMap.t) (w : World) : Control * JobMap.t * World :=
  match parsed with
  | [] => (Continue, JOBS, w)
  | raw :: rest =>
      match processListing search raw JOBS w with
      | (Continue, JOBS', w') => processListings search rest JOBS' w'
      | (Break, JOBS', w') => (Break, JOBS', w')
      | (Return, JOBS', w') => (Return, JOBS', w')
      end
  end.

(** [for (let start = 0; start <= MAX_START; start += 25)], from the
    offset [start] on; [fuel] bounds the number of pages. *)
Fixpoint processPages (fuel : nat) (search : SearchConfig.t) (start : Z)
         (JOBS : JobMap.t) (w : World) : JobMap.t * World :=
  match fuel with
  | O => (JOBS, w)
  | S fuel' =>
      if (start <=? MAX_START)%Z then
        match fetchText (searchUrl search start) w with
        | (Threw _, w1) => (JOBS, w1)
        | (Returned text, w1) =>
            if negb (Js.includes text SENTINEL) then (JOBS, w1)
            else
              match parseMarkdown text search with
              | [] => (JOBS, w1)
              | parsed =>
                  match processListings search parsed JOBS w1 with
                  | (Return, JOBS', w2) => (JOBS', w2)
                  | (_, JOBS', w2) =>
                      processPages fuel' search (start + 25) JOBS'
                                   (delay 1400 w2)
                  end
              end
        end
      else (JOBS, w)
  end.

(** Offsets 0, 25 and 50 are the only ones within [MAX_START]. *)
Definition processSearch (search : SearchConfig.t) (JOBS : JobMap.t)
           (w : World) : JobMap.t * World :=
  processPages 3 search 0 JOBS w.

(** The loop of [main] over the configured searches. *)
Fixpoint runSearches (searches : list SearchConfig.t) (JOBS : JobMap.t)
         (w : World) : JobMap.t * World :=
  match searches with
  | [] => (JOBS, w)
  | search :: rest =>
      if (countByCountry JOBS (SearchConfig.country search)
          >=? SearchConfig.maxJobs search)%Z
      then runSearches rest JOBS w
      else
        let '(JOBS', w') := processSearch search JOBS w in
        runSearches rest JOBS' (delay 2000 w')
  end.

(** ** The output document *)

Record Payload : Type := mkPayload {
  total : Z;
  jobs : list JobEntry.t
}.

Section Output.

(** [String.prototype.localeCompare]: negative, zero or positive. *)
Variable localeCompare : string -> string -> Z.

(** [a.country.localeCompare(b.country) || a.title.localeCompare(b.title)] *)
Definition compareJobs (a b : JobEntry.t) : Z :=
  let byCountry := localeCompare (JobEntry.country a) (JobEntry.country b) in
  if (byCountry =? 0)%Z
  then localeCompare (JobEntry.title a) (JobEntry.title b)
  else byCountry.

(** [Array.prototype.sort] is stable: an element goes before the first
    one that it does not follow under the comparator. *)
Fixpoint insert {A : Type} (cmp : A -> A -> Z) (x : A) (l : list A) : list A :=
  match l with
  | [] => [x]
  | y :: l' => if (cmp x y <=? 0)%Z then x :: l else y :: insert cmp x l'
  end.

Fixpoint sort {A : Type} (cmp : A -> A -> Z) (l : list A) : list A :=
  match l with
  | [] => []
  | x :: l' => insert cmp x (sort cmp l')
  end.

(** [main], up to the document that is written out. *)
Definition main (w : World) : Payload * World :=
  let '(JOBS, w') := runSearches SEARCHES JobMap.empty w in
  let items := sort compareJobs (JobMap.values JOBS) in
  (mkPayload (Z.of_nat (List.length items)) items, w').

End Output.

(** ** The job browser

    The display layer reads the [jobs] of the output document; the
    fields of its [Job] are fields of a [JobEntry]. *)

Module Browser.

(** The state of the visa filter, [VisaStatus | "All"]. *)
Inductive VisaChoice : Type :=
| AllVisa
| Only (status : VisaStatus).

(** [job.visa.status === visa] *)
Definition sameStatus (a b : VisaStatus) : bool :=
  match a, b with
  | Yes, Yes | No, No | NotMentioned, NotMentioned => true
  | _, _ => false
  end.

Definition matchesQuery (job : JobEntry.t) (query : string) : bool :=
  let normalized := Js.toLowerCase (Js.trim query) in
  if negb (Js.nonEmpty normalized) then true
  else
    Js.includes (Js.toLowerCase (JobEntry.title job)) normalized
    || Js.includes (Js.toLowerCase (JobEntry.company job)) normalized
    || Js.includes (Js.toLowerCase (JobEntry.location job)) normalized
    || existsb (fun reason => Js.includes (Js.toLowerCase reason) normalized)
               (JobEntry.matchReasons job).

(** The [filteredJobs] of [JobBrowser] for a state of its three filters. *)
Definition filteredJobs (jobs : list JobEntry.t) (country : string)
           (visa : VisaChoice) (search : string) : list JobEntry.t :=
  filter
    (fun job =>
       let byCountry :=
         String.eqb country "All" || String.eqb (JobEntry.country job) country in
       let byVisa :=
         match visa with
         | AllVisa => true
         | Only status => sameStatus (Visa.status (JobEntry.visa job)) status
         end in
       let bySearch := matchesQuery job search in
       byCountry && byVisa && bySearch)
    jobs.

End Browser.

(** ** Notions used in the statements *)

(** The listing passes the filters that do not look at the result map. *)
Definition acceptable (search : SearchConfig.t) (raw : RawJob.t) : bool :=
  negb (Js.includes (Js.toLowerCase (RawJob.title raw)) "remote")
  && negb (isRemote (RawJob.metaTags raw) (RawJob.locationLine raw))
  && isRelevantTitle (RawJob.title raw)
  && negb (Js.includes (Js.toLowerCase (RawJob.company raw)) "twine")
  && Js.includes (Js.toLowerCase (RawJob.countryGuess raw))
                 (Js.toLowerCase (SearchConfig.country search)).

(** The record's country contains [country], case-insensitively. *)
Definition inCountry (country : string) (job : JobEntry.t) : bool :=
  Js.includes (Js.toLowerCase (JobEntry.country job)) (Js.toLowerCase country).

(** The invariant of the result map: no key twice, every record stored
    under its [id], and every record built by [makeEntry] from a
    listing. *)
Definition wellFormed (JOBS : JobMap.t) : Prop :=
  NoDup (JobMap.keys JOBS) /\
  forall (k : string) (e : JobEntry.t),
    In (k, e) JOBS ->
    k = JobEntry.id e /\
    exists (raw : RawJob.t) (visaInfo : VisaInfo.t), e = makeEntry raw visaInfo.

(** What the sort relies on: swapping the arguments of the comparator
    swaps the sign of its result. *)
Definition antisymmetric (compare : string -> string -> Z) : Prop :=
  forall a b : string, Z.sgn (compare b a) = (- Z.sgn (compare a b))%Z.

(** [a] may stand right before [b] in the output: by country first,
    by title when the countries compare equal. *)
Definition inOrder (compare : string -> string -> Z) (a b : JobEntry.t) : Prop :=
  (compare (JobEntry.country a) (JobEntry.country b) <= 0)%Z
  /\ (compare (JobEntry.country a) (JobEntry.country b) = 0%Z ->
      (compare (JobEntry.title a) (JobEntry.title b) <= 0)%Z).

(** Comparison by code units, one comparator with the sign property. *)
Definition codeUnitCompare (a b : string) : Z :=
  match String.compare a b with
  | Lt => (-1)%Z
  | Eq => 0%Z
  | Gt => 1%Z
  end.

(** [Array.from(new Set(l))]: the members in the order of their first
    occurrence. *)
Definition distinct (l : list string) : list string := fold_left setAdd l [].

(** The [countries] of [JobBrowser]: "All", then the countries of the
    jobs, each once, in the order of the default [sort], which compares
    strings by their code units. *)
Definition browserCountries (jobs : list JobEntry.t) : list string :=
  "All" :: sort codeUnitCompare (distinct (map JobEntry.country jobs)).

(** [x] does not have to come after [y] under the comparator. *)
Definition notAfter {A : Type} (cmp : A -> A -> Z) (x y : A) : Prop :=
  (cmp x y <= 0)%Z.

(** ** Sample inputs *)

Definition NL : string := String LF "".

(** One list item of the proxy's markdown: a title link, a company link
    and a meta line. *)
Definition sampleItem (title slug : string) : string :=
  "*   [" ++ title ++ "](https://be.linkedin.com/jobs/view/" ++ slug
  ++ "?refId=abc)" ++ NL ++ NL
  ++ "#### [Acme](https://be.linkedin.com/company/acme)" ++ NL ++ NL
  ++ " Brussels, Belgium  2 days ago  Be an early applicant" ++ NL ++ NL
  ++ "Actively hiring" ++ NL.

(** A search for Belgium with a cap of two records. *)
Definition belgiumCap2 : SearchConfig.t :=
  SearchConfig.mk "Belgium" "Belgium" "digital marketing"
    "Digital Marketing (Belgium)" 2.

(** Replies used below. *)
Definition tooMany : Response := mkResponse 429 "Too Many Requests" "".
Definition unavailableMarked : Response :=
  mkResponse 503 "Service Unavailable" "Too Many Requests".
Definition fine : Response := mkResponse 200 "OK" "fine".
Definition okMarked : Response := mkResponse 200 "OK" "Too Many Requests".

(** A document with one listing and no sentinel. *)
Definition bareListing : string := sampleItem "Digital Marketing Manager" "1".

(** The listing that [parseMarkdown] reads from [sampleItem title slug]
    in a search for Belgium. *)
Definition sampleRaw (title slug : string) : RawJob.t :=
  RawJob.mk title "Acme"
    ("https://be.linkedin.com/jobs/view/" ++ slug ++ "?refId=abc")
    (Some "https://be.linkedin.com/company/acme")
    "Brussels, Belgium" (Some "2 days ago")
    ["2 days ago"; "Be an early applicant"] "Belgium" belgiumCap2.

Definition pageOf (items : string) : string :=
  "Title: Jobs" ++ NL ++ SENTINEL ++ NL ++ items.

(** A page with three listings for Belgium. *)
Definition threeListings : string :=
  pageOf (sampleItem "Digital Marketing Manager" "1"
          ++ sampleItem "Content Creator" "2"
          ++ sampleItem "Brand Lead" "3").

(** A page on which the same listing stands twice. *)
Definition sameListingTwice : string :=
  pageOf (sampleItem "Digital Marketing Manager" "1"
          ++ sampleItem "Digital Marketing Manager" "1").

Definition detailPage (text : string) : Reply :=
  Replied (mkResponse 200 "OK" (pageOf text)).

Definition failingDetail : Reply :=
  Replied (mkResponse 500 "Internal Server Error" "oops").

(** The replies to a search whose first page is [threeListings]: the
    detail page of the first listing fails, the two others answer. *)
Definition threeListingsWorld : World :=
  mkWorld [Replied (mkResponse 200 "OK" threeListings);
           failingDetail;
           detailPage "We offer visa support. Instagram and TikTok.";
           detailPage "third"] [].

Definition sameListingTwiceWorld : World :=
  mkWorld [Replied (mkResponse 200 "OK" sameListingTwice);
           detailPage "first"; detailPage "second"] [].

(** A record whose country contains the name of another country. *)
Definition northernIrelandJob : JobEntry.t :=
  JobEntry.mk "https://ie.linkedin.com/jobs/view/9" "Brand Manager" "Acme"
    "https://ie.linkedin.com/jobs/view/9" None "Belfast" "Northern Ireland"
    "Recently posted" [] ["Matches Digital Marketing Manager (Ireland)"]
    (Visa.mk NotMentioned None) "Digital Marketing Manager (Ireland)"
    "digital marketing manager" "LinkedIn".

Definition northernIrelandMap : JobMap.t :=
  [("https://ie.linkedin.com/jobs/view/9", northernIrelandJob)].

Definition irelandCap1 : SearchConfig.t :=
  SearchConfig.mk "Ireland" "Dublin, County Dublin, Ireland"
    "digital marketing manager" "Digital Marketing Manager (Ireland)" 1.

Definition irelandCap2 : SearchConfig.t :=
  SearchConfig.mk "Ireland" "Dublin, County Dublin, Ireland"
    "digital marketing manager" "Digital Marketing Manager (Ireland)" 2.

Definition dublinRaw : RawJob.t :=
  RawJob.mk "Content Marketing Lead" "Acme"
    "https://ie.linkedin.com/jobs/view/7?trk=guest"
    (Some "https://ie.linkedin.com/company/acme")
    "Dublin, County Dublin, Ireland" (Some "1 week ago") ["1 week ago"]
    "Ireland" irelandCap2.

(** ** Notions used in the further statements *)

(** The milliseconds of waiting recorded in a trace. *)
Fixpoint waited (log : list Event) : Z :=
  match log with
  | [] => 0
  | Delay ms :: log' => ms + waited log'
  | Fetch _ :: log' => waited log'
  end.

(** One of the keywords of the rule occurs in the corpus. *)
Definition fires (corpus : string) (rule : list string * string) : bool :=
  existsb (fun kw => Js.includes corpus kw) (fst rule).

(** One turn of the loop of [buildMatchReasons] over the rules. *)
Definition step (corpus : string) (reasons : list string)
           (rule : list string * string) : list string :=
  if fires corpus rule then setAdd reasons (snd rule) else reasons.

(** The corpus that [buildMatchReasons] searches. *)
Definition corpusOf (raw : RawJob.t) (detailText : string) : string :=
  Js.toLowerCase (RawJob.title raw ++ " " ++ detailText).

(** A lower-case country name with each word capitalised, as
    [inferCountry] returns it. *)
Definition titleCased (country : string) : string :=
  Js.join " " (map capitalize (Js.split country " ")).

(** What holds of every listing that [parseMarkdown] returns for
    [search]. *)
Definition parsedFor (search : SearchConfig.t) (raw : RawJob.t) : Prop :=
  RawJob.search raw = search
  /\ Js.includes (RawJob.jobUrl raw) "linkedin.com/jobs/view" = true
  /\ RawJob.countryGuess raw =
     Js.orElse (inferCountry (RawJob.locationLine raw))
               (SearchConfig.country search)
  /\ RawJob.companyUrl raw <> None
  /\ RawJob.postedText raw <> None
  /\ Forall (fun tag => tag <> EmptyString) (RawJob.metaTags raw).

(** The visa information a record can be built with: the fallback of
    the [catch], or the classification of a fetched detail page. *)
Definition visaResult (visaInfo : VisaInfo.t) : Prop :=
  visaInfo = visaFallback \/ exists text : string, visaInfo = classifyVisa text.

(** The record was built, in one of the searches, from a parsed listing
    that passed the filters. *)
Definition storedBy (searches : list SearchConfig.t) (e : JobEntry.t) : Prop :=
  exists (search : SearchConfig.t) (raw : RawJob.t) (visaInfo : VisaInfo.t),
    In search searches
    /\ parsedFor search raw
    /\ acceptable search raw = true
    /\ visaResult visaInfo
    /\ e = makeEntry raw visaInfo.

(** The first record of a one-search run over [threeListingsWorld]. *)
Definition firstStored : JobEntry.t :=
  nth 0 (JobMap.values
           (fst (runSearches [belgiumCap2] JobMap.empty threeListingsWorld)))
      northernIrelandJob.

(** The largest cap that the searches set for a country. *)
Definition capOf (searches : list SearchConfig.t) (country : string) : Z :=
  fold_right Z.max 0%Z
    (map SearchConfig.maxJobs
       (filter (fun s => String.eqb (SearchConfig.country s) country) searches)).

(** The countries of the searches, each once. *)
Definition countryNames (searches : list SearchConfig.t) : list string :=
  nodup string_dec (map SearchConfig.country searches).

Definition sumOver (f : string -> Z) (names : list string) : Z :=
  fold_right (fun name acc => (f name + acc)%Z) 0%Z names.

(** The countries of the searches are names that [inferCountry] knows,
    in the spelling it returns them in, and none of them contains
    another. *)
Definition separated (searches : list SearchConfig.t) : Prop :=
  (forall s, In s searches ->
             In (Js.toLowerCase (SearchConfig.country s)) countries)
  /\ (forall name s,
         In name countries -> In s searches ->
         Js.includes (Js.toLowerCase (titleCased name))
                     (Js.toLowerCase (SearchConfig.country s)) = true ->
         titleCased name = SearchConfig.country s)
  /\ (forall s s',
         In s searches -> In s' searches ->
         Js.includes (Js.toLowerCase (SearchConfig.country s'))
                     (Js.toLowerCase (SearchConfig.country s)) = true ->
         SearchConfig.country s' = SearchConfig.country s).

(** The caps hold for every country of the searches, and every record
    counts for one country. *)
Definition withinCaps (searches : list SearchConfig.t) (JOBS : JobMap.t) : Prop :=
  (forall country, In country (countryNames searches) ->
                   (countByCountry JOBS country <= capOf searches country)%Z)
  /\ JobMap.size JOBS = sumOver (countByCountry JOBS) (countryNames searches).

(** The latest event of the trace is not a request. *)
Definition rested (log : list Event) : bool :=
  match log with
  | Fetch _ :: _ => false
  | _ => true
  end.

Definition viaProxy (url : string) : bool :=
  Js.startsWith url "https://r.jina.ai/".

(** Every request of the trace goes to the proxy, and none follows
    another request without a wait in between. *)
Fixpoint polite (log : list Event) : bool :=
  match log with
  | [] => true
  | Delay _ :: log' => polite log'
  | Fetch url :: log' => viaProxy url && rested log' && polite log'
  end.

(** * Properties *)

(** ** Strings *)

Lemma append_empty_r (s : string) : s ++ "" = s.
Proof.
  induction s as [|c s IH]; simpl; [reflexivity | now rewrite IH].
Qed.

Lemma append_assoc (a b c : string) : (a ++ b) ++ c = a ++ (b ++ c).
Proof.
  induction a as [|x a IH]; simpl; [reflexivity | now rewrite IH].
Qed.

Lemma rev_string_append (acc s : string) :
  Js.rev_string acc s = Js.rev_string "" s ++ acc.
Proof.
  revert acc.
  induction s as [|c s IH]; intros acc; simpl; [reflexivity|].
  rewrite (IH (String c acc)), (IH (String c "")).
  now rewrite append_assoc.
Qed.

Lemma reverse_cons (c : ascii) (cur s : string) :
  Js.reverse (String c cur) ++ s = Js.reverse cur ++ String c s.
Proof.
  unfold Js.reverse; simpl.
  rewrite (rev_string_append (String c "") cur).
  now rewrite append_assoc.
Qed.

Lemma includes_cons (c : ascii) (s kw : string) :
  Js.includes (String c s) kw = false ->
  Js.startsWith (String c s) kw = false /\ Js.includes s kw = false.
Proof.
  simpl. intros H. now apply orb_false_iff in H.
Qed.

(** Without an occurrence of the separator, [split] returns the string
    whole. *)
Lemma splitAux_absent (sep : string) (s cur : string) :
  Js.includes s sep = false ->
  Js.splitAux sep 0 cur s = [Js.reverse cur ++ s].
Proof.
  revert cur.
  induction s as [|c s IH]; intros cur H.
  - simpl. now rewrite append_empty_r.
  - apply includes_cons in H. destruct H as [Hp Hs].
    cbn [Js.splitAux]. rewrite Hp.
    rewrite (IH (String c cur) Hs).
    now rewrite reverse_cons.
Qed.

Lemma split_absent (s sep : string) :
  Js.includes s sep = false -> Js.split s sep = [s].
Proof.
  intros H. unfold Js.split. now rewrite splitAux_absent.
Qed.

(** ** Classification rules *)

(** C6 -- exclusion dominance: a title in which one of the excluded
    keywords occurs, case-insensitively, is never relevant, whatever
    required keywords it also holds. *)
Theorem isRelevantTitle_excluded_keyword (title keyword : string) :
  In keyword excluded ->
  Js.includes (Js.toLowerCase title) keyword = true ->
  isRelevantTitle title = false.
Proof.
  intros Hin Hocc. unfold isRelevantTitle.
  destruct (negb (existsb _ required)); [reflexivity|].
  assert (E : existsb (fun k => Js.includes (Js.toLowerCase title) k) excluded
              = true).
  { apply existsb_exists. exists keyword. split; assumption. }
  now rewrite E.
Qed.

Lemma isRelevantTitle_excluded_keyword_witness :
  isRelevantTitle "Senior Marketing ENGINEER (Content)" = false.
Proof.
  apply (isRelevantTitle_excluded_keyword _ "engineer").
  - simpl. tauto.
  - vm_compute. reflexivity.
Defined.

(** ** Markdown job parser *)

Lemma parseMarkdown_absent (markdown : string) (search : SearchConfig.t) :
  Js.includes markdown SENTINEL = false ->
  parseMarkdown markdown search =
  match markdown with
  | EmptyString => []
  | String _ _ => parseCleaned markdown search
  end.
Proof.
  intros H. unfold parseMarkdown. rewrite (split_absent _ _ H). reflexivity.
Qed.

(** A page without the sentinel ends the search before it is parsed:
    nothing is stored and no further request is made. *)
Lemma processPages_no_sentinel (fuel : nat) (search : SearchConfig.t)
      (start : Z) (JOBS : JobMap.t) (w w1 : World) (text : string) :
  (start <=? MAX_START)%Z = true ->
  fetchText (searchUrl search start) w = (Returned text, w1) ->
  Js.includes text SENTINEL = false ->
  processPages (S fuel) search start JOBS w = (JOBS, w1).
Proof.
  intros Hstart Hfetch Habsent. cbn [processPages].
  rewrite Hstart, Hfetch, Habsent. reflexivity.
Qed.

(** C2, as stated, fails: [parseMarkdown] itself does not look for the
    sentinel, so a document without it that holds a well-formed list
    item yields that listing. *)
Lemma parseMarkdown_without_sentinel_counterexample :
  ~ (forall (markdown : string) (search : SearchConfig.t),
        Js.includes markdown SENTINEL = false ->
        parseMarkdown markdown search = []).
Proof.
  intros H.
  specialize (H bareListing belgiumCap2).
  assert (A : Js.includes bareListing SENTINEL = false)
    by (vm_compute; reflexivity).
  specialize (H A).
  assert (L : List.length (parseMarkdown bareListing belgiumCap2) = 1%nat)
    by (vm_compute; reflexivity).
  rewrite H in L. discriminate L.
Qed.

(** C2, amended -- for a document without the sentinel [parseMarkdown]
    takes the whole document as the listing markdown (and returns the
    empty sequence when the document is empty); it is [processSearch]
    that drops such a document: a fetched page without the sentinel ends
    the search before [parseMarkdown] is called, so nothing is stored
    from it. *)
Theorem parseMarkdown_without_sentinel (markdown : string)
        (search : SearchConfig.t) :
  Js.includes markdown SENTINEL = false ->
  parseMarkdown markdown search =
    match markdown with
    | EmptyString => []
    | String _ _ => parseCleaned markdown search
    end
  /\ forall (fuel : nat) (start : Z) (JOBS : JobMap.t) (w w1 : World),
       (start <=? MAX_START)%Z = true ->
       fetchText (searchUrl search start) w = (Returned markdown, w1) ->
       processPages (S fuel) search start JOBS w = (JOBS, w1).
Proof.
  intros H. split.
  - now apply parseMarkdown_absent.
  - intros fuel start JOBS w w1 Hstart Hfetch.
    now apply (processPages_no_sentinel fuel search start JOBS w w1 markdown).
Qed.

Lemma parseMarkdown_without_sentinel_witness :
  parseMarkdown bareListing belgiumCap2 = parseCleaned bareListing belgiumCap2
  /\ processSearch belgiumCap2 JobMap.empty
       (mkWorld [Replied (mkResponse 200 "OK" bareListing)] [])
     = (JobMap.empty, mkWorld [] [Fetch (searchUrl belgiumCap2 0)]).
Proof.
  assert (A : Js.includes bareListing SENTINEL = false)
    by (vm_compute; reflexivity).
  destruct (parseMarkdown_without_sentinel bareListing belgiumCap2 A)
    as [Hparse Hpage].
  split.
  - exact Hparse.
  - apply Hpage; vm_compute; reflexivity.
Defined.

(** ** Rate-limited fetcher *)

Lemma fetchTextOn_429 (url : string) (attempt : Z) (response : Response)
      (rest : list Reply) (log : list Event) :
  status response = 429%Z ->
  fetchTextOn url attempt (Replied response :: rest) log =
  if (attempt >? 4)%Z
  then (Threw (RetriesExhausted url), mkWorld rest (Fetch url :: log))
  else fetchTextOn url (attempt + 1) rest
         (Delay (3000 * attempt) :: Fetch url :: log).
Proof.
  intros H. cbn [fetchTextOn]. rewrite H. reflexivity.
Qed.

(** A body with a rate-limit marker is retried whatever the status. *)
Lemma fetchTextOn_marked (url : string) (attempt : Z) (response : Response)
      (rest : list Reply) (log : list Event) :
  status response <> 429%Z ->
  rateLimitedBody (body response) = true ->
  fetchTextOn url attempt (Replied response :: rest) log =
  if (attempt >? 4)%Z
  then (Threw (RetriesExhausted url), mkWorld rest (Fetch url :: log))
  else fetchTextOn url (attempt + 1) rest
         (Delay (4000 * attempt) :: Fetch url :: log).
Proof.
  intros Hs Hb. cbn [fetchTextOn].
  apply Z.eqb_neq in Hs. rewrite Hs, Hb. reflexivity.
Qed.

Lemma fetchTextOn_plain (url : string) (attempt : Z) (response : Response)
      (rest : list Reply) (log : list Event) :
  status response <> 429%Z ->
  rateLimitedBody (body response) = false ->
  fetchTextOn url attempt (Replied response :: rest) log =
  if ok response
  then (Returned (body response), mkWorld rest (Fetch url :: log))
  else (Threw (HttpError url (status response) (statusText response)),
        mkWorld rest (Fetch url :: log)).
Proof.
  intros Hs Hb. cbn [fetchTextOn].
  apply Z.eqb_neq in Hs. rewrite Hs, Hb. cbn.
  destruct (ok response); reflexivity.
Qed.

(** A call started at [attempt] makes at most [6 - attempt] requests,
    and one at least. *)
Lemma fetchTextOn_requests (url : string) (script : list Reply) :
  forall (attempt : Z) (log : list Event),
    (requests (trace (snd (fetchTextOn url attempt script log)))
     <= requests log + Z.max 1 (6 - attempt))%Z.
Proof.
  induction script as [|reply rest IH]; intros attempt log.
  - cbn [fetchTextOn snd trace requests]. lia.
  - destruct reply as [response|]; [|cbn [fetchTextOn snd trace requests]; lia].
    destruct (Z.eq_dec (status response) 429) as [E|E].
    + rewrite (fetchTextOn_429 _ _ _ _ _ E).
      destruct (attempt >? 4)%Z eqn:A.
      * cbn [snd trace requests]. lia.
      * specialize (IH (attempt + 1)%Z
                       (Delay (3000 * attempt) :: Fetch url :: log)).
        cbn [requests] in IH. rewrite Z.gtb_ltb in A. apply Z.ltb_ge in A. lia.
    + destruct (rateLimitedBody (body response)) eqn:B.
      * rewrite (fetchTextOn_marked _ _ _ _ _ E B).
        destruct (attempt >? 4)%Z eqn:A.
        -- cbn [fetchTextOn snd trace requests]. lia.
        -- specialize (IH (attempt + 1)%Z
                          (Delay (4000 * attempt) :: Fetch url :: log)).
           cbn [requests] in IH. rewrite Z.gtb_ltb in A. apply Z.ltb_ge in A.
           lia.
      * rewrite (fetchTextOn_plain _ _ _ _ _ E B).
        destruct (ok response); cbn [snd trace requests]; lia.
Qed.

(** C3, as stated, fails: a 503 whose body says "Too Many Requests" is
    taken for a rate limit and retried, and the call then returns the
    text of the next reply. *)
Lemma fetchText_http_error_counterexample :
  ~ (forall (url : string) (response : Response) (rest : list Reply)
            (log : list Event),
        status response <> 429%Z ->
        ok response = false ->
        fetchText url (mkWorld (Replied response :: rest) log) =
        (Threw (HttpError url (status response) (statusText response)),
         mkWorld rest (Fetch url :: log))).
Proof.
  intros H.
  specialize (H "u" unavailableMarked [Replied fine] []).
  assert (R : fetchText "u" (mkWorld [Replied unavailableMarked; Replied fine] [])
              = (Returned "fine",
                 mkWorld [] [Fetch "u"; Delay 4000; Fetch "u"]))
    by (vm_compute; reflexivity).
  rewrite R in H.
  assert (A : status unavailableMarked <> 429%Z) by (cbn; lia).
  specialize (H A eq_refl). discriminate H.
Qed.

(** C3, amended -- a reply whose status is neither 2xx nor 429 and whose
    body holds neither rate-limit marker makes [fetchText] fail at once
    with [HttpError] carrying that status: one request, no wait, no
    retry, at whatever attempt it arrives. *)
Theorem fetchText_http_error (url : string) (attempt : Z)
        (response : Response) (rest : list Reply) (log : list Event) :
  status response <> 429%Z ->
  ok response = false ->
  rateLimitedBody (body response) = false ->
  fetchTextAt url attempt (mkWorld (Replied response :: rest) log) =
  (Threw (HttpError url (status response) (statusText response)),
   mkWorld rest (Fetch url :: log)).
Proof.
  intros Hs Hok Hb. unfold fetchTextAt. cbn [pending trace].
  rewrite (fetchTextOn_plain _ _ _ _ _ Hs Hb), Hok. reflexivity.
Qed.

Lemma fetchText_http_error_witness :
  fetchText "u"
    (mkWorld [Replied (mkResponse 500 "Internal Server Error" "oops");
              Replied fine] [])
  = (Threw (HttpError "u" 500 "Internal Server Error"),
     mkWorld [Replied fine] [Fetch "u"]).
Proof.
  apply (fetchText_http_error "u" 1
           (mkResponse 500 "Internal Server Error" "oops")).
  - cbn. lia.
  - reflexivity.
  - vm_compute. reflexivity.
Defined.

(** C4, as stated, fails: after three 429s a 200 whose body says "Too
    Many Requests" is itself taken for a rate limit; the call waits
    16000 ms, asks again and returns the text of the reply after it,
    not the body of that 200. *)
Lemma fetchText_retry_cap_counterexample :
  ~ (forall (url : string) (r1 r2 r3 r4 : Response) (rest : list Reply)
            (log : list Event),
        status r1 = 429%Z -> status r2 = 429%Z -> status r3 = 429%Z ->
        status r4 = 200%Z ->
        fst (fetchText url
               (mkWorld (Replied r1 :: Replied r2 :: Replied r3 :: Replied r4
                         :: rest) log))
        = Returned (body r4)).
Proof.
  intros H.
  specialize (H "u" tooMany tooMany tooMany okMarked [Replied fine] []
                eq_refl eq_refl eq_refl eq_refl).
  assert (R : fetchText "u"
                (mkWorld [Replied tooMany; Replied tooMany; Replied tooMany;
                          Replied okMarked; Replied fine] [])
              = (Returned "fine",
                 mkWorld []
                   [Fetch "u"; Delay 16000; Fetch "u"; Delay 9000; Fetch "u";
                    Delay 6000; Fetch "u"; Delay 3000; Fetch "u"]))
    by (vm_compute; reflexivity).
  rewrite R in H. discriminate H.
Qed.

(** C4, amended -- [fetchText] makes at most five requests, that is
    four retries; three 429s followed by a 200 whose body holds no
    rate-limit marker give that body, after waits of 3, 6 and 9
    seconds; five 429s in a row end in [RetriesExhausted] at the
    fifth. *)
Theorem fetchText_retry_cap (url : string) :
  (forall w : World,
      (requests (trace (snd (fetchText url w))) <= requests (trace w) + 5)%Z)
  /\ (forall (r1 r2 r3 r4 : Response) (rest : list Reply) (log : list Event),
         status r1 = 429%Z -> status r2 = 429%Z -> status r3 = 429%Z ->
         status r4 = 200%Z -> rateLimitedBody (body r4) = false ->
         fetchText url
           (mkWorld (Replied r1 :: Replied r2 :: Replied r3 :: Replied r4
                     :: rest) log)
         = (Returned (body r4),
            mkWorld rest
              (Fetch url :: Delay 9000 :: Fetch url :: Delay 6000
               :: Fetch url :: Delay 3000 :: Fetch url :: log)))
  /\ (forall (r1 r2 r3 r4 r5 : Response) (rest : list Reply)
             (log : list Event),
         status r1 = 429%Z -> status r2 = 429%Z -> status r3 = 429%Z ->
         status r4 = 429%Z -> status r5 = 429%Z ->
         fetchText url
           (mkWorld (Replied r1 :: Replied r2 :: Replied r3 :: Replied r4
                     :: Replied r5 :: rest) log)
         = (Threw (RetriesExhausted url),
            mkWorld rest
              (Fetch url :: Delay 12000 :: Fetch url :: Delay 9000
               :: Fetch url :: Delay 6000 :: Fetch url :: Delay 3000
               :: Fetch url :: log))).
Proof.
  split; [|split].
  - intros w. unfold fetchText, fetchTextAt.
    pose proof (fetchTextOn_requests url (pending w) 1 (trace w)) as B. lia.
  - intros r1 r2 r3 r4 rest log H1 H2 H3 H4 Hb.
    unfold fetchText, fetchTextAt. cbn [pending trace].
    rewrite (fetchTextOn_429 _ _ _ _ _ H1). cbn [Z.gtb Z.compare].
    rewrite (fetchTextOn_429 _ _ _ _ _ H2). cbn [Z.gtb Z.compare Z.add].
    rewrite (fetchTextOn_429 _ _ _ _ _ H3). cbn [Z.gtb Z.compare Z.add].
    assert (N4 : status r4 <> 429%Z) by lia.
    rewrite (fetchTextOn_plain _ _ _ _ _ N4 Hb).
    unfold ok. rewrite H4. reflexivity.
  - intros r1 r2 r3 r4 r5 rest log H1 H2 H3 H4 H5.
    unfold fetchText, fetchTextAt. cbn [pending trace].
    rewrite (fetchTextOn_429 _ _ _ _ _ H1). cbn [Z.gtb Z.compare].
    rewrite (fetchTextOn_429 _ _ _ _ _ H2). cbn [Z.gtb Z.compare Z.add].
    rewrite (fetchTextOn_429 _ _ _ _ _ H3). cbn [Z.gtb Z.compare Z.add].
    rewrite (fetchTextOn_429 _ _ _ _ _ H4). cbn [Z.gtb Z.compare Z.add].
    rewrite (fetchTextOn_429 _ _ _ _ _ H5). reflexivity.
Qed.

Lemma fetchText_retry_cap_witness :
  fst (fetchText "u"
         (mkWorld [Replied tooMany; Replied tooMany; Replied tooMany;
                   Replied fine] []))
  = Returned "fine"
  /\ fst (fetchText "u"
            (mkWorld [Replied tooMany; Replied tooMany; Replied tooMany;
                      Replied tooMany; Replied tooMany] []))
     = Threw (RetriesExhausted "u").
Proof.
  destruct (fetchText_retry_cap "u") as [_ [H200 H429]].
  split.
  - rewrite (H200 tooMany tooMany tooMany fine [] []);
      try reflexivity; vm_compute; reflexivity.
  - rewrite (H429 tooMany tooMany tooMany tooMany tooMany [] []);
      reflexivity.
Defined.

(** ** Visa evidence extractor *)

Lemma startsWith_cons (c : ascii) (s kw : string) :
  Js.startsWith s (String c kw) = true ->
  exists s', s = String c s' /\ Js.startsWith s' kw = true.
Proof.
  unfold Js.startsWith. destruct s as [|a s]; simpl; [discriminate|].
  destruct (ascii_dec c a) as [E|E]; [|discriminate].
  intros H. exists s. subst a. split; [reflexivity | exact H].
Qed.

Lemma includes_tail (s kw : string) :
  Js.includes s kw = true -> forall c, Js.includes (String c s) kw = true.
Proof.
  intros H c. cbn [Js.includes]. rewrite H. apply orb_true_r.
Qed.

Lemma includes_startsWith (s kw : string) :
  Js.startsWith s kw = true -> Js.includes s kw = true.
Proof.
  intros H. destruct s; cbn [Js.includes]; rewrite H; reflexivity.
Qed.

(** A string that contains [c :: kw] contains [kw]. *)
Lemma includes_drop_first (c : ascii) (kw : string) (s : string) :
  Js.includes s (String c kw) = true -> Js.includes s kw = true.
Proof.
  induction s as [|a s IH]; cbn [Js.includes]; intros H.
  - rewrite orb_false_r in H. apply startsWith_cons in H.
    destruct H as [s' [E _]]. discriminate E.
  - apply orb_true_iff in H. destruct H as [H|H].
    + apply startsWith_cons in H. destruct H as [s' [E P]].
      injection E as _ E. subst s'.
      rewrite (includes_startsWith _ _ P). apply orb_true_r.
    + rewrite (IH H). apply orb_true_r.
Qed.

Lemma startsWith_append (kw s : string) :
  Js.startsWith s kw = true -> exists rest, s = kw ++ rest.
Proof.
  revert s. induction kw as [|c kw IH]; intros s H.
  - exists s. reflexivity.
  - apply startsWith_cons in H. destruct H as [s' [E P]].
    destruct (IH s' P) as [rest R]. exists rest. subst. reflexivity.
Qed.

(** The positive pattern matches wherever "visa sponsorship" begins. *)
Lemma positiveRe_at_visa_sponsorship (prev : option ascii) (s : string) :
  Js.startsWith s "visa sponsorship" = true ->
  Re.run positiveRe prev s [] (fun _ s' cs => Some (s', cs)) <> None.
Proof.
  intros H. apply startsWith_append in H. destruct H as [rest E]. subst s.
  vm_compute. discriminate.
Qed.

Lemma positiveRe_found (s : string) :
  Js.includes s "visa sponsorship" = true ->
  forall (i : nat) (prev : option ascii),
    Re.execFrom positiveRe i prev s <> None.
Proof.
  induction s as [|c s IH]; intros H i prev.
  - vm_compute in H. discriminate H.
  - cbn [Js.includes] in H. cbn [Re.execFrom].
    destruct (Re.run positiveRe prev (String c s) []
                (fun _ s' cs => Some (s', cs))) as [[s' cs]|] eqn:R.
    + discriminate.
    + apply orb_true_iff in H. destruct H as [H|H].
      * exfalso. exact (positiveRe_at_visa_sponsorship prev _ H R).
      * apply IH. exact H.
Qed.

(** Whenever the text holds "no visa sponsorship" the positive group
    wins: the first alternative of the negative pattern is never the one
    that decides. *)
Lemma classifyVisa_no_visa_sponsorship (text : string) :
  Js.includes
    (Js.toLowerCase (Js.orElse (Js.pop (Js.split text SENTINEL)) text))
    "no visa sponsorship" = true ->
  VisaInfo.status (classifyVisa text) = Yes.
Proof.
  intros H.
  do 3 apply includes_drop_first in H.
  unfold classifyVisa, Re.exec.
  pose proof (positiveRe_found _ H 0%nat None) as P.
  destruct (Re.execFrom positiveRe 0 None _) as [m|]; [reflexivity|].
  now elim P.
Qed.

(** C1 -- the code at the body "no visa sponsorship": the positive
    pattern finds "visa sponsorship" inside the negative phrase, so the
    status is [Yes] where the claim has [No]. *)
Theorem detectVisa_no_visa_sponsorship :
  detectVisa "https://www.linkedin.com/jobs/view/123"
    (mkWorld [Replied (mkResponse 200 "OK" "no visa sponsorship")] [])
  = (Returned (VisaInfo.mk Yes (Some "no visa sponsorship")
                 "no visa sponsorship"),
     mkWorld [] [Fetch "https://r.jina.ai/https://www.linkedin.com/jobs/view/123"]).
Proof.
  vm_compute. reflexivity.
Qed.

(** The other negative phrases are reached. *)
Example classifyVisa_without_sponsorship :
  classifyVisa "We hire without sponsorship" =
  VisaInfo.mk No (Some "We hire without sponsorship")
    "We hire without sponsorship".
Proof.
  vm_compute. reflexivity.
Qed.

(** ** The result map *)

Lemma has_keys (m : JobMap.t) (k : string) :
  JobMap.has m k = true <-> In k (JobMap.keys m).
Proof.
  induction m as [|[k' v'] m IH]; simpl.
  - split; [discriminate | tauto].
  - rewrite orb_true_iff, String.eqb_eq, IH. tauto.
Qed.

Lemma has_absent (m : JobMap.t) (k : string) :
  JobMap.has m k = false -> ~ In k (JobMap.keys m).
Proof.
  intros H HIn. apply has_keys in HIn. congruence.
Qed.

(** [set] on a key that is not there appends the binding. *)
Lemma set_absent (m : JobMap.t) (k : string) (v : JobEntry.t) :
  JobMap.has m k = false -> JobMap.set m k v = (m ++ [(k, v)])%list.
Proof.
  induction m as [|[k' v'] m IH]; simpl; intros H; [reflexivity|].
  apply orb_false_iff in H. destruct H as [E H].
  rewrite E, (IH H). reflexivity.
Qed.

Lemma keys_app (m m' : JobMap.t) :
  JobMap.keys (m ++ m')%list = (JobMap.keys m ++ JobMap.keys m')%list.
Proof. apply map_app. Qed.

Lemma values_app (m m' : JobMap.t) :
  JobMap.values (m ++ m')%list = (JobMap.values m ++ JobMap.values m')%list.
Proof. apply map_app. Qed.

Lemma NoDup_snoc {A : Type} (l : list A) (x : A) :
  NoDup l -> ~ In x l -> NoDup (l ++ [x])%list.
Proof.
  intros Hl Hx. induction Hl as [|y l Hy Hl IH]; simpl.
  - constructor; [tauto | constructor].
  - constructor.
    + rewrite in_app_iff. simpl. intros [H|[H|[]]]; [tauto|].
      subst. apply Hx. now left.
    + apply IH. intros H. apply Hx. now right.
Qed.

Lemma wellFormed_empty : wellFormed JobMap.empty.
Proof.
  split; [constructor | intros k e []].
Qed.

Lemma wellFormed_set (JOBS : JobMap.t) (raw : RawJob.t) (v : VisaInfo.t) :
  wellFormed JOBS ->
  JobMap.has JOBS (JobEntry.id (makeEntry raw v)) = false ->
  wellFormed (JobMap.set JOBS (JobEntry.id (makeEntry raw v)) (makeEntry raw v)).
Proof.
  intros [Hnd Hall] Habs. rewrite (set_absent _ _ _ Habs). split.
  - rewrite keys_app. apply NoDup_snoc; [exact Hnd | now apply has_absent].
  - intros k e HIn. apply in_app_iff in HIn. destruct HIn as [HIn|[HIn|[]]].
    + now apply Hall.
    + injection HIn as <- <-. split; [reflexivity | now exists raw, v].
Qed.

(** In a well-formed map the ids of the records are the keys. *)
Lemma wellFormed_ids (JOBS : JobMap.t) :
  wellFormed JOBS ->
  map JobEntry.id (JobMap.values JOBS) = JobMap.keys JOBS.
Proof.
  intros [_ Hall]. unfold JobMap.values, JobMap.keys.
  induction JOBS as [|[k e] JOBS IH]; simpl; [reflexivity|].
  destruct (Hall k e (or_introl eq_refl)) as [<- _].
  f_equal. apply IH. intros k' e' HIn. apply Hall. now right.
Qed.

(** ** Per-country accounting *)

Lemma countFrom_filter (lowerCountry : string) (l : list JobEntry.t) :
  forall total : Z,
    countFrom total lowerCountry l =
    (total +
     Z.of_nat (List.length
                 (filter (fun job =>
                            Js.includes (Js.toLowerCase (JobEntry.country job))
                                        lowerCountry) l)))%Z.
Proof.
  induction l as [|job l IH]; intros total; cbn [countFrom filter].
  - cbn. lia.
  - destruct (Js.includes _ lowerCountry).
    + rewrite IH. cbn [List.length]. lia.
    + apply IH.
Qed.

Lemma countByCountry_filter (JOBS : JobMap.t) (country : string) :
  countByCountry JOBS country =
  Z.of_nat (List.length (filter (inCountry country) (JobMap.values JOBS))).
Proof.
  unfold countByCountry. rewrite countFrom_filter. reflexivity.
Qed.

Lemma countByCountry_set (JOBS : JobMap.t) (k : string) (e : JobEntry.t)
      (country : string) :
  JobMap.has JOBS k = false ->
  countByCountry (JobMap.set JOBS k e) country =
  (countByCountry JOBS country + if inCountry country e then 1 else 0)%Z.
Proof.
  intros H. rewrite (set_absent _ _ _ H), !countByCountry_filter.
  rewrite values_app, filter_app, length_app.
  cbn [JobMap.values map filter snd].
  destruct (inCountry country e); cbn [List.length]; lia.
Qed.

(** ** Search orchestrator *)

Lemma skipped_spec (search : SearchConfig.t) (JOBS : JobMap.t) (raw : RawJob.t) :
  skipped search JOBS raw =
  negb (acceptable search raw)
  || JobMap.has JOBS (canonicalUrl (RawJob.jobUrl raw)).
Proof.
  unfold skipped, acceptable.
  destruct (Js.includes (Js.toLowerCase (RawJob.title raw)) "remote");
    [reflexivity|].
  destruct (isRemote (RawJob.metaTags raw) (RawJob.locationLine raw));
    [reflexivity|].
  destruct (isRelevantTitle (RawJob.title raw)); [|reflexivity].
  destruct (Js.includes (Js.toLowerCase (RawJob.company raw)) "twine");
    [reflexivity|].
  destruct (JobMap.has JOBS (canonicalUrl (RawJob.jobUrl raw)));
    destruct (Js.includes (Js.toLowerCase (RawJob.countryGuess raw))
                (Js.toLowerCase (SearchConfig.country search)));
    reflexivity.
Qed.

Lemma skipped_false (search : SearchConfig.t) (JOBS : JobMap.t) (raw : RawJob.t) :
  skipped search JOBS raw = false <->
  acceptable search raw = true
  /\ JobMap.has JOBS (canonicalUrl (RawJob.jobUrl raw)) = false.
Proof.
  rewrite skipped_spec, orb_false_iff, negb_false_iff. tauto.
Qed.

(** A listing whose canonical URL is already a key is passed over: the
    map and the world stay as they are. *)
Lemma processListing_duplicate (search : SearchConfig.t) (raw : RawJob.t)
      (JOBS : JobMap.t) (w : World) :
  JobMap.has JOBS (canonicalUrl (RawJob.jobUrl raw)) = true ->
  processListing search raw JOBS w = (Continue, JOBS, w).
Proof.
  intros H. unfold processListing.
  rewrite skipped_spec, H, orb_true_r. reflexivity.
Qed.

(** What happens to a listing that gets through the filters. *)
Lemma processListing_accepted (search : SearchConfig.t) (raw : RawJob.t)
      (JOBS : JobMap.t) (w w' : World) (visaInfo : VisaInfo.t) :
  skipped search JOBS raw = false ->
  (JobMap.size JOBS < 200)%Z ->
  visaOrFallback (RawJob.jobUrl raw) (delay 800 w) = (visaInfo, w') ->
  processListing search raw JOBS w =
  (if (countByCountry
         (JobMap.set JOBS (canonicalUrl (RawJob.jobUrl raw))
                     (makeEntry raw visaInfo))
         (SearchConfig.country search)
       >=? SearchConfig.maxJobs search)%Z
   then Return else Continue,
   JobMap.set JOBS (canonicalUrl (RawJob.jobUrl raw)) (makeEntry raw visaInfo),
   w').
Proof.
  intros Hskip Hsize Hvisa. unfold processListing.
  rewrite Hskip.
  assert (S : (JobMap.size JOBS >=? 200)%Z = false)
    by (rewrite Z.geb_leb; apply Z.leb_gt; exact Hsize).
  rewrite S, Hvisa. cbn [JobEntry.id makeEntry].
  destruct (countByCountry _ _ >=? _)%Z; reflexivity.
Qed.

Lemma processListing_wellFormed (search : SearchConfig.t) (raw : RawJob.t)
      (JOBS : JobMap.t) (w : World) :
  wellFormed JOBS ->
  wellFormed (snd (fst (processListing search raw JOBS w))).
Proof.
  intros Hwf. unfold processListing.
  destruct (skipped search JOBS raw) eqn:Hskip; [exact Hwf|].
  destruct (JobMap.size JOBS >=? 200)%Z; [exact Hwf|].
  destruct (visaOrFallback (RawJob.jobUrl raw) (delay 800 w)) as [v w2].
  apply skipped_false in Hskip. destruct Hskip as [_ Habs].
  assert (W : wellFormed
                (JobMap.set JOBS (JobEntry.id (makeEntry raw v))
                            (makeEntry raw v)))
    by (apply wellFormed_set; assumption).
  destruct (countByCountry _ _ >=? _)%Z; exact W.
Qed.

Lemma processListings_wellFormed (search : SearchConfig.t)
      (parsed : list RawJob.t) :
  forall (JOBS : JobMap.t) (w : World),
    wellFormed JOBS ->
    wellFormed (snd (fst (processListings search parsed JOBS w))).
Proof.
  induction parsed as [|raw rest IH]; intros JOBS w Hwf; [exact Hwf|].
  cbn [processListings].
  pose proof (processListing_wellFormed search raw JOBS w Hwf) as H.
  destruct (processListing search raw JOBS w) as [[[] JOBS'] w'];
    cbn [fst snd] in *; [now apply IH | exact H | exact H].
Qed.

Lemma processPages_wellFormed (search : SearchConfig.t) (fuel : nat) :
  forall (start : Z) (JOBS : JobMap.t) (w : World),
    wellFormed JOBS ->
    wellFormed (fst (processPages fuel search start JOBS w)).
Proof.
  induction fuel as [|fuel IH]; intros start JOBS w Hwf; [exact Hwf|].
  cbn [processPages].
  destruct (start <=? MAX_START)%Z; [|exact Hwf].
  destruct (fetchText (searchUrl search start) w) as [[text|e] w1];
    [|exact Hwf].
  destruct (negb (Js.includes text SENTINEL)); [exact Hwf|].
  destruct (parseMarkdown text search) as [|raw parsed]; [exact Hwf|].
  pose proof (processListings_wellFormed search (raw :: parsed) JOBS w1 Hwf)
    as H.
  destruct (processListings search (raw :: parsed) JOBS w1)
    as [[[] JOBS'] w2]; cbn [fst snd] in *;
    [now apply IH | now apply IH | exact H].
Qed.

Lemma runSearches_wellFormed (searches : list SearchConfig.t) :
  forall (JOBS : JobMap.t) (w : World),
    wellFormed JOBS -> wellFormed (fst (runSearches searches JOBS w)).
Proof.
  induction searches as [|search rest IH]; intros JOBS w Hwf; [exact Hwf|].
  cbn [runSearches].
  destruct (countByCountry _ _ >=? _)%Z; [now apply IH|].
  pose proof (processPages_wellFormed search 3 0 JOBS w Hwf) as H.
  unfold processSearch.
  destruct (processPages 3 search 0 JOBS w) as [JOBS' w'].
  now apply IH.
Qed.

Lemma startsWith_single (q c : ascii) (s : string) :
  Js.startsWith (String c s) (String q "") =
  if ascii_dec q c then true else false.
Proof.
  unfold Js.startsWith. cbn [String.prefix].
  destruct (ascii_dec q c); [destruct s|]; reflexivity.
Qed.

(** The first piece of a split on "?" is what stands before the first
    question mark. *)
Lemma splitAux_query_head (u : string) :
  forall cur : string,
    exists pre rest : string,
      u = pre ++ rest
      /\ hd EmptyString (Js.splitAux "?" 0 cur u) = Js.reverse cur ++ pre
      /\ Js.includes pre "?" = false
      /\ (rest = EmptyString \/ Js.startsWith rest "?" = true).
Proof.
  induction u as [|c u IH]; intros cur.
  - exists EmptyString, EmptyString. cbn [Js.splitAux hd].
    repeat split; auto. now rewrite append_empty_r.
  - cbn [Js.splitAux].
    destruct (Js.startsWith (String c u) "?") eqn:P.
    + exists EmptyString, (String c u). cbn [hd].
      repeat split; auto. now rewrite append_empty_r.
    + destruct (IH (String c cur)) as [pre [rest [E [H [I R]]]]].
      exists (String c pre), rest. repeat split.
      * cbn. now rewrite E.
      * rewrite H. apply reverse_cons.
      * cbn [Js.includes]. rewrite I, orb_false_r.
        rewrite startsWith_single in *. exact P.
      * exact R.
Qed.

(** [canonicalUrl] cuts the URL at its first question mark. *)
Lemma canonicalUrl_strips_query (url : string) :
  exists rest : string,
    url = canonicalUrl url ++ rest
    /\ Js.includes (canonicalUrl url) "?" = false
    /\ (rest = EmptyString \/ Js.startsWith rest "?" = true).
Proof.
  destruct (splitAux_query_head url EmptyString) as [pre [rest [E [H [I R]]]]].
  exists rest. unfold canonicalUrl, Js.split. rewrite H.
  cbn. rewrite <- E. auto.
Qed.

Lemma processListings_app (search : SearchConfig.t) (before : list RawJob.t) :
  forall (rest : list RawJob.t) (JOBS JOBS1 : JobMap.t) (w w1 : World),
    processListings search before JOBS w = (Continue, JOBS1, w1) ->
    processListings search (before ++ rest) JOBS w =
    processListings search rest JOBS1 w1.
Proof.
  induction before as [|raw before IH]; intros rest JOBS JOBS1 w w1 H.
  - cbn in H. injection H as -> ->. reflexivity.
  - cbn [processListings app] in *.
    destruct (processListing search raw JOBS w) as [[[] JOBS'] w'];
      [now apply IH | discriminate H | discriminate H].
Qed.

(** One turn of the page loop on a page that parses to some listings. *)
Lemma processPages_page (fuel : nat) (search : SearchConfig.t) (start : Z)
      (JOBS JOBS' : JobMap.t) (w w1 w2 : World) (text : string)
      (parsed : list RawJob.t) (c : Control) :
  (start <= MAX_START)%Z ->
  fetchText (searchUrl search start) w = (Returned text, w1) ->
  Js.includes text SENTINEL = true ->
  parseMarkdown text search = parsed ->
  parsed <> [] ->
  processListings search parsed JOBS w1 = (c, JOBS', w2) ->
  processPages (S fuel) search start JOBS w =
  match c with
  | Return => (JOBS', w2)
  | _ => processPages fuel search (start + 25) JOBS' (delay 1400 w2)
  end.
Proof.
  intros Hstart Hfetch Hsent Hparse Hne Hlist. cbn [processPages].
  apply Z.leb_le in Hstart. rewrite Hstart, Hfetch, Hsent, Hparse.
  cbn [negb].
  destruct parsed as [|raw parsed]; [congruence|].
  rewrite Hlist. destruct c; reflexivity.
Qed.

Lemma processPages_past_end (fuel : nat) (search : SearchConfig.t) (start : Z)
      (JOBS : JobMap.t) (w : World) :
  (MAX_START < start)%Z -> processPages fuel search start JOBS w = (JOBS, w).
Proof.
  intros H. destruct fuel as [|fuel]; [reflexivity|].
  cbn [processPages]. apply Z.leb_gt in H. rewrite H. reflexivity.
Qed.

(** The page loop ends by its own test: fuel beyond the number of
    offsets within [MAX_START] changes nothing. *)
Lemma processPages_fuel (search : SearchConfig.t) (extra : nat) (fuel : nat) :
  forall (start : Z) (JOBS : JobMap.t) (w : World),
    (MAX_START < start + 25 * Z.of_nat fuel)%Z ->
    processPages (fuel + extra) search start JOBS w =
    processPages fuel search start JOBS w.
Proof.
  induction fuel as [|fuel IH]; intros start JOBS w H.
  - cbn [Nat.add processPages]. apply processPages_past_end. lia.
  - cbn [Nat.add processPages].
    destruct (start <=? MAX_START)%Z; [|reflexivity].
    destruct (fetchText (searchUrl search start) w) as [[text|e] w1];
      [|reflexivity].
    destruct (negb (Js.includes text SENTINEL)); [reflexivity|].
    destruct (parseMarkdown text search) as [|raw parsed]; [reflexivity|].
    destruct (processListings search (raw :: parsed) JOBS w1)
      as [[[] JOBS'] w2]; try reflexivity; apply IH; lia.
Qed.

Lemma processSearch_fuel (search : SearchConfig.t) (extra : nat)
      (JOBS : JobMap.t) (w : World) :
  processPages (3 + extra) search 0 JOBS w = processSearch search JOBS w.
Proof.
  apply processPages_fuel. unfold MAX_START. lia.
Qed.

(** An accepted record that fills the country's quota ends the loop
    over the listings with [Return]: what follows it on the page plays
    no part. *)
Lemma processListings_return_at_cap (search : SearchConfig.t)
      (before after : list RawJob.t) (raw : RawJob.t)
      (JOBS JOBS1 : JobMap.t) (w w1 w2 : World) (visaInfo : VisaInfo.t) :
  processListings search before JOBS w = (Continue, JOBS1, w1) ->
  skipped search JOBS1 raw = false ->
  (JobMap.size JOBS1 < 200)%Z ->
  visaOrFallback (RawJob.jobUrl raw) (delay 800 w1) = (visaInfo, w2) ->
  (SearchConfig.maxJobs search <=
   countByCountry
     (JobMap.set JOBS1 (canonicalUrl (RawJob.jobUrl raw))
                 (makeEntry raw visaInfo))
     (SearchConfig.country search))%Z ->
  processListings search (before ++ raw :: after) JOBS w =
  (Return,
   JobMap.set JOBS1 (canonicalUrl (RawJob.jobUrl raw)) (makeEntry raw visaInfo),
   w2).
Proof.
  intros Hbefore Hskip Hsize Hvisa Hcap.
  rewrite (processListings_app _ _ _ _ _ _ _ Hbefore).
  cbn [processListings].
  rewrite (processListing_accepted _ _ _ _ _ _ Hskip Hsize Hvisa).
  rewrite Z.geb_leb. apply Z.leb_le in Hcap. rewrite Hcap. reflexivity.
Qed.

Lemma acceptable_inCountry (search : SearchConfig.t) (raw : RawJob.t)
      (visaInfo : VisaInfo.t) :
  acceptable search raw = true ->
  inCountry (SearchConfig.country search) (makeEntry raw visaInfo) = true.
Proof.
  unfold acceptable, inCountry. intros H.
  apply andb_true_iff in H. destruct H as [_ H]. exact H.
Qed.

(** C5 -- in any run the accumulated records have pairwise distinct
    ids; each record's [id] is its [applyUrl] and is the URL of the
    listing it was built from, cut at the first question mark (so
    [.../jobs/view/123?refId=abc] gives [.../jobs/view/123]); and a
    listing whose canonical URL is already present is passed over,
    leaving the map and the world untouched. *)
Theorem accumulated_ids_distinct_canonical
        (searches : list SearchConfig.t) (w : World) :
  let JOBS := fst (runSearches searches JobMap.empty w) in
  NoDup (map JobEntry.id (JobMap.values JOBS))
  /\ (forall e : JobEntry.t,
         In e (JobMap.values JOBS) ->
         JobEntry.id e = JobEntry.applyUrl e
         /\ exists (raw : RawJob.t) (visaInfo : VisaInfo.t) (rest : string),
              e = makeEntry raw visaInfo
              /\ JobEntry.id e = canonicalUrl (RawJob.jobUrl raw)
              /\ RawJob.jobUrl raw = JobEntry.id e ++ rest
              /\ Js.includes (JobEntry.id e) "?" = false
              /\ (rest = EmptyString \/ Js.startsWith rest "?" = true))
  /\ canonicalUrl "https://www.linkedin.com/jobs/view/123?refId=abc"
     = "https://www.linkedin.com/jobs/view/123"
  /\ (forall (search : SearchConfig.t) (raw : RawJob.t) (JOBS0 : JobMap.t)
             (w0 : World),
         JobMap.has JOBS0 (canonicalUrl (RawJob.jobUrl raw)) = true ->
         processListing search raw JOBS0 w0 = (Continue, JOBS0, w0)).
Proof.
  intros JOBS.
  assert (Hwf : wellFormed JOBS)
    by (apply runSearches_wellFormed, wellFormed_empty).
  split; [|split; [|split]].
  - rewrite (wellFormed_ids _ Hwf). exact (proj1 Hwf).
  - intros e HIn. unfold JobMap.values in HIn. apply in_map_iff in HIn.
    destruct HIn as [[k e'] [E HIn]]. cbn in E. subst e'.
    destruct (proj2 Hwf k e HIn) as [_ [raw [v ->]]].
    split; [reflexivity|].
    destruct (canonicalUrl_strips_query (RawJob.jobUrl raw))
      as [rest [E1 [E2 E3]]].
    exists raw, v, rest. cbn [JobEntry.id makeEntry]. auto.
  - vm_compute. reflexivity.
  - intros search raw JOBS0 w0 H. now apply processListing_duplicate.
Qed.

Lemma accumulated_ids_distinct_canonical_witness :
  let JOBS := fst (runSearches [belgiumCap2] JobMap.empty sameListingTwiceWorld) in
  NoDup (map JobEntry.id (JobMap.values JOBS))
  /\ JobMap.keys JOBS = ["https://be.linkedin.com/jobs/view/1"]
  /\ processListing belgiumCap2 (sampleRaw "Digital Marketing Manager" "1")
       JOBS (mkWorld [] [])
     = (Continue, JOBS, mkWorld [] []).
Proof.
  destruct (accumulated_ids_distinct_canonical [belgiumCap2]
              sameListingTwiceWorld) as [Hdistinct [_ [_ Hdup]]].
  split; [exact Hdistinct|]. split; [vm_compute; reflexivity|].
  apply Hdup. vm_compute. reflexivity.
Defined.

Example parseMarkdown_threeListings :
  parseMarkdown threeListings belgiumCap2 =
  [sampleRaw "Digital Marketing Manager" "1";
   sampleRaw "Content Creator" "2";
   sampleRaw "Brand Lead" "3"].
Proof.
  vm_compute. reflexivity.
Qed.

(** C7 -- an accepted record that brings the count for the search's
    country up to [maxJobs] makes [processSearch] return at once: the
    listings after it on the page and the later pages are not looked at.
    With a cap of 2 for Belgium and a first page of three acceptable,
    distinct Belgium listings, the map ends with exactly the first two
    and the world is the one left by the second detail fetch. *)
Theorem processSearch_returns_at_cap (search : SearchConfig.t) :
  (forall (before after : list RawJob.t) (raw : RawJob.t)
          (JOBS JOBS1 : JobMap.t) (w w1 w2 : World) (visaInfo : VisaInfo.t),
      processListings search before JOBS w = (Continue, JOBS1, w1) ->
      skipped search JOBS1 raw = false ->
      (JobMap.size JOBS1 < 200)%Z ->
      visaOrFallback (RawJob.jobUrl raw) (delay 800 w1) = (visaInfo, w2) ->
      (SearchConfig.maxJobs search <=
       countByCountry
         (JobMap.set JOBS1 (canonicalUrl (RawJob.jobUrl raw))
                     (makeEntry raw visaInfo))
         (SearchConfig.country search))%Z ->
      processListings search (before ++ raw :: after) JOBS w =
      (Return,
       JobMap.set JOBS1 (canonicalUrl (RawJob.jobUrl raw))
                  (makeEntry raw visaInfo),
       w2)
      /\ forall (fuel : nat) (start : Z) (w0 : World) (text : string),
           (start <= MAX_START)%Z ->
           fetchText (searchUrl search start) w0 = (Returned text, w) ->
           Js.includes text SENTINEL = true ->
           parseMarkdown text search = (before ++ raw :: after)%list ->
           processPages (S fuel) search start JOBS w0 =
           (JobMap.set JOBS1 (canonicalUrl (RawJob.jobUrl raw))
                       (makeEntry raw visaInfo),
            w2))
  /\ (SearchConfig.country search = "Belgium" ->
      SearchConfig.maxJobs search = 2%Z ->
      forall (r1 r2 r3 : RawJob.t) (w w1 wa wb : World) (text : string)
             (v1 v2 : VisaInfo.t),
        fetchText (searchUrl search 0) w = (Returned text, w1) ->
        Js.includes text SENTINEL = true ->
        parseMarkdown text search = [r1; r2; r3] ->
        acceptable search r1 = true ->
        acceptable search r2 = true ->
        acceptable search r3 = true ->
        canonicalUrl (RawJob.jobUrl r1) <> canonicalUrl (RawJob.jobUrl r2) ->
        canonicalUrl (RawJob.jobUrl r1) <> canonicalUrl (RawJob.jobUrl r3) ->
        canonicalUrl (RawJob.jobUrl r2) <> canonicalUrl (RawJob.jobUrl r3) ->
        visaOrFallback (RawJob.jobUrl r1) (delay 800 w1) = (v1, wa) ->
        visaOrFallback (RawJob.jobUrl r2) (delay 800 wa) = (v2, wb) ->
        processSearch search JobMap.empty w =
        ([(canonicalUrl (RawJob.jobUrl r1), makeEntry r1 v1);
          (canonicalUrl (RawJob.jobUrl r2), makeEntry r2 v2)],
         wb)
        /\ JobMap.has (fst (processSearch search JobMap.empty w))
                      (canonicalUrl (RawJob.jobUrl r3)) = false).
Proof.
  assert (General :
    forall (before after : list RawJob.t) (raw : RawJob.t)
           (JOBS JOBS1 : JobMap.t) (w w1 w2 : World) (visaInfo : VisaInfo.t),
      processListings search before JOBS w = (Continue, JOBS1, w1) ->
      skipped search JOBS1 raw = false ->
      (JobMap.size JOBS1 < 200)%Z ->
      visaOrFallback (RawJob.jobUrl raw) (delay 800 w1) = (visaInfo, w2) ->
      (SearchConfig.maxJobs search <=
       countByCountry
         (JobMap.set JOBS1 (canonicalUrl (RawJob.jobUrl raw))
                     (makeEntry raw visaInfo))
         (SearchConfig.country search))%Z ->
      processListings search (before ++ raw :: after) JOBS w =
      (Return,
       JobMap.set JOBS1 (canonicalUrl (RawJob.jobUrl raw))
                  (makeEntry raw visaInfo),
       w2)
      /\ forall (fuel : nat) (start : Z) (w0 : World) (text : string),
           (start <= MAX_START)%Z ->
           fetchText (searchUrl search start) w0 = (Returned text, w) ->
           Js.includes text SENTINEL = true ->
           parseMarkdown text search = (before ++ raw :: after)%list ->
           processPages (S fuel) search start JOBS w0 =
           (JobMap.set JOBS1 (canonicalUrl (RawJob.jobUrl raw))
                       (makeEntry raw visaInfo),
            w2)).
  { intros before after raw JOBS JOBS1 w w1 w2 visaInfo
           Hbefore Hskip Hsize Hvisa Hcap.
    pose proof (processListings_return_at_cap search before after raw JOBS
                  JOBS1 w w1 w2 visaInfo Hbefore Hskip Hsize Hvisa Hcap) as R.
    split; [exact R|].
    intros fuel start w0 text Hstart Hfetch Hsent Hparse.
    assert (Hne : (before ++ raw :: after)%list <> [])
      by (intros E; apply app_eq_nil in E; destruct E as [_ E];
          discriminate E).
    exact (processPages_page fuel search start JOBS _ w0 w w2 text _ Return
             Hstart Hfetch Hsent Hparse Hne R). }
  split; [exact General|].
  intros Hcountry Hmax r1 r2 r3 w w1 wa wb text v1 v2
         Hfetch Hsent Hparse A1 A2 A3 N12 N13 N23 V1 V2.
  (* the first listing is stored and the loop goes on *)
  assert (S1 : skipped search JobMap.empty r1 = false)
    by (apply skipped_false; split; [exact A1 | reflexivity]).
  assert (C1 : countByCountry
                 (JobMap.set JobMap.empty (canonicalUrl (RawJob.jobUrl r1))
                             (makeEntry r1 v1))
                 (SearchConfig.country search) = 1%Z).
  { rewrite countByCountry_set by reflexivity.
    rewrite (acceptable_inCountry _ _ _ A1). reflexivity. }
  assert (L1 : processListings search [r1] JobMap.empty w1 =
               (Continue,
                [(canonicalUrl (RawJob.jobUrl r1), makeEntry r1 v1)], wa)).
  { cbn [processListings].
    rewrite (processListing_accepted search r1 JobMap.empty w1 wa v1 S1
               ltac:(cbn; lia) V1).
    rewrite C1, Hmax. reflexivity. }
  (* the second one fills the quota *)
  assert (H2 : JobMap.has [(canonicalUrl (RawJob.jobUrl r1), makeEntry r1 v1)]
                          (canonicalUrl (RawJob.jobUrl r2)) = false).
  { cbn [JobMap.has]. apply String.eqb_neq in N12. rewrite N12. reflexivity. }
  assert (S2 : skipped search
                 [(canonicalUrl (RawJob.jobUrl r1), makeEntry r1 v1)] r2
               = false)
    by (apply skipped_false; split; [exact A2 | exact H2]).
  assert (C2 : countByCountry
                 (JobMap.set
                    [(canonicalUrl (RawJob.jobUrl r1), makeEntry r1 v1)]
                    (canonicalUrl (RawJob.jobUrl r2)) (makeEntry r2 v2))
                 (SearchConfig.country search) = 2%Z).
  { rewrite (countByCountry_set _ _ _ _ H2).
    rewrite (acceptable_inCountry _ _ _ A2).
    change [(canonicalUrl (RawJob.jobUrl r1), makeEntry r1 v1)]
      with (JobMap.set JobMap.empty (canonicalUrl (RawJob.jobUrl r1))
                       (makeEntry r1 v1)).
    rewrite C1. reflexivity. }
  destruct (General [r1] [r3] r2 JobMap.empty _ w1 wa wb v2 L1 S2
              ltac:(cbn; lia) V2 ltac:(rewrite C2, Hmax; lia)) as [_ Page].
  assert (R : processSearch search JobMap.empty w =
              ([(canonicalUrl (RawJob.jobUrl r1), makeEntry r1 v1);
                (canonicalUrl (RawJob.jobUrl r2), makeEntry r2 v2)], wb)).
  { unfold processSearch.
    rewrite (Page 2%nat 0%Z w text ltac:(unfold MAX_START; lia)
               Hfetch Hsent Hparse).
    rewrite (set_absent _ _ _ H2). reflexivity. }
  split; [exact R|].
  rewrite R. cbn [fst JobMap.has].
  apply String.eqb_neq in N13. apply String.eqb_neq in N23.
  rewrite N13, N23. reflexivity.
Qed.

Lemma processSearch_returns_at_cap_witness :
  JobMap.keys (fst (processSearch belgiumCap2 JobMap.empty threeListingsWorld))
  = ["https://be.linkedin.com/jobs/view/1";
     "https://be.linkedin.com/jobs/view/2"]
  /\ pending (snd (processSearch belgiumCap2 JobMap.empty threeListingsWorld))
     = [detailPage "third"].
Proof.
  destruct (processSearch_returns_at_cap belgiumCap2) as [_ H].
  pose (w1 := snd (fetchText (searchUrl belgiumCap2 0) threeListingsWorld)).
  pose (r1 := sampleRaw "Digital Marketing Manager" "1").
  pose (r2 := sampleRaw "Content Creator" "2").
  pose (r3 := sampleRaw "Brand Lead" "3").
  pose (s1 := visaOrFallback (RawJob.jobUrl r1) (delay 800 w1)).
  pose (s2 := visaOrFallback (RawJob.jobUrl r2) (delay 800 (snd s1))).
  specialize (H eq_refl eq_refl r1 r2 r3 threeListingsWorld w1 (snd s1)
                (snd s2) threeListings (fst s1) (fst s2)).
  assert (Hfetch : fetchText (searchUrl belgiumCap2 0) threeListingsWorld =
                   (Returned threeListings, w1)) by (vm_compute; reflexivity).
  assert (Hsent : Js.includes threeListings SENTINEL = true)
    by (vm_compute; reflexivity).
  assert (Hparse : parseMarkdown threeListings belgiumCap2 = [r1; r2; r3])
    by (vm_compute; reflexivity).
  specialize (H Hfetch Hsent Hparse).
  specialize (H ltac:(vm_compute; reflexivity) ltac:(vm_compute; reflexivity)
                ltac:(vm_compute; reflexivity)).
  specialize (H ltac:(vm_compute; discriminate) ltac:(vm_compute; discriminate)
                ltac:(vm_compute; discriminate)).
  specialize (H ltac:(vm_compute; reflexivity) ltac:(vm_compute; reflexivity)).
  destruct H as [R _].
  rewrite R. split; vm_compute; reflexivity.
Defined.

(** C9 -- when [detectVisa] throws for a listing that got through the
    filters, the listing is stored all the same: its visa status is
    [NotMentioned] without evidence, its match reasons are those of the
    title with an empty detail text, and the loop goes on with the next
    listing exactly as after a successful detail fetch (it returns when
    the country's quota is reached and continues otherwise). *)
Theorem processListing_visa_failure (search : SearchConfig.t) (raw : RawJob.t)
        (JOBS : JobMap.t) (w w' : World) (e : FetchError) :
  skipped search JOBS raw = false ->
  (JobMap.size JOBS < 200)%Z ->
  detectVisa (RawJob.jobUrl raw) (delay 800 w) = (Threw e, w') ->
  let entry := makeEntry raw visaFallback in
  let JOBS' := JobMap.set JOBS (JobEntry.id entry) entry in
  JobEntry.visa entry = Visa.mk NotMentioned None
  /\ JobEntry.matchReasons entry = buildMatchReasons raw EmptyString
  /\ In entry (JobMap.values JOBS')
  /\ processListing search raw JOBS w =
     (if (countByCountry JOBS' (SearchConfig.country search)
          >=? SearchConfig.maxJobs search)%Z
      then Return else Continue,
      JOBS', w')
  /\ forall rest : list RawJob.t,
       (countByCountry JOBS' (SearchConfig.country search)
        < SearchConfig.maxJobs search)%Z ->
       processListings search (raw :: rest) JOBS w =
       processListings search rest JOBS' w'.
Proof.
  intros Hskip Hsize Hvisa entry JOBS'.
  assert (V : visaOrFallback (RawJob.jobUrl raw) (delay 800 w)
              = (visaFallback, w'))
    by (unfold visaOrFallback; rewrite Hvisa; reflexivity).
  pose proof (processListing_accepted search raw JOBS w w' visaFallback
                Hskip Hsize V) as P.
  split; [reflexivity|]. split; [reflexivity|]. split; [|split].
  - apply skipped_false in Hskip. destruct Hskip as [_ Habs].
    unfold JOBS'. rewrite (set_absent _ _ _ Habs), values_app.
    apply in_app_iff. right. now left.
  - exact P.
  - intros rest Hbelow. cbn [processListings]. rewrite P.
    fold entry. change (canonicalUrl (RawJob.jobUrl raw))
      with (JobEntry.id entry). fold JOBS'.
    rewrite Z.geb_leb.
    assert (B : (SearchConfig.maxJobs search <=?
                 countByCountry JOBS' (SearchConfig.country search))%Z = false)
      by (apply Z.leb_gt; exact Hbelow).
    rewrite B. reflexivity.
Qed.

Lemma processListing_visa_failure_witness :
  let raw := sampleRaw "Digital Marketing Manager" "1" in
  let entry := makeEntry raw visaFallback in
  processListings belgiumCap2 [raw; sampleRaw "Content Creator" "2"]
    JobMap.empty (mkWorld [failingDetail; detailPage "second"] [])
  = processListings belgiumCap2 [sampleRaw "Content Creator" "2"]
      [(JobEntry.id entry, entry)]
      (mkWorld [detailPage "second"]
         [Fetch ("https://r.jina.ai/" ++ RawJob.jobUrl raw); Delay 800]).
Proof.
  intros raw entry.
  destruct (processListing_visa_failure belgiumCap2 raw JobMap.empty
              (mkWorld [failingDetail; detailPage "second"] [])
              (mkWorld [detailPage "second"]
                 [Fetch ("https://r.jina.ai/" ++ RawJob.jobUrl raw); Delay 800])
              (HttpError ("https://r.jina.ai/" ++ RawJob.jobUrl raw) 500
                 "Internal Server Error"))
    as [_ [_ [_ [_ H]]]].
  - vm_compute. reflexivity.
  - cbn. lia.
  - vm_compute. reflexivity.
  - apply H. vm_compute. reflexivity.
Defined.

(** C10 -- the per-country count goes by containment, not equality:
    [countByCountry] is the number of stored records whose country
    contains the given name, case-insensitively.  A record with country
    "Northern Ireland" therefore counts for "Ireland", both where
    [main] decides to skip a search and where [processListing] decides
    to return. *)
Theorem countByCountry_by_containment (JOBS : JobMap.t) (country : string) :
  countByCountry JOBS country =
  Z.of_nat (List.length (filter (inCountry country) (JobMap.values JOBS)))
  /\ (forall job : JobEntry.t,
         JobEntry.country job = "Northern Ireland" ->
         inCountry "Ireland" job = true)
  /\ (forall (search : SearchConfig.t) (rest : list SearchConfig.t) (w : World),
         SearchConfig.country search = country ->
         (SearchConfig.maxJobs search <=
          Z.of_nat (List.length
                      (filter (inCountry country) (JobMap.values JOBS))))%Z ->
         runSearches (search :: rest) JOBS w = runSearches rest JOBS w)
  /\ (forall (search : SearchConfig.t) (raw : RawJob.t) (w w' : World)
             (visaInfo : VisaInfo.t),
         SearchConfig.country search = country ->
         skipped search JOBS raw = false ->
         (JobMap.size JOBS < 200)%Z ->
         visaOrFallback (RawJob.jobUrl raw) (delay 800 w) = (visaInfo, w') ->
         (SearchConfig.maxJobs search <=
          Z.of_nat (List.length
                      (filter (inCountry country)
                         (JobMap.values JOBS ++ [makeEntry raw visaInfo]))))%Z ->
         fst (fst (processListing search raw JOBS w)) = Return).
Proof.
  split; [apply countByCountry_filter|]. split; [|split].
  - intros job H. unfold inCountry. rewrite H. vm_compute. reflexivity.
  - intros search rest w Hc Hcap. cbn [runSearches].
    rewrite Hc, countByCountry_filter, Z.geb_leb.
    apply Z.leb_le in Hcap. rewrite Hcap. reflexivity.
  - intros search raw w w' visaInfo Hc Hskip Hsize Hvisa Hcap.
    rewrite (processListing_accepted _ _ _ _ _ _ Hskip Hsize Hvisa).
    cbn [fst]. rewrite Hc, countByCountry_filter, Z.geb_leb.
    apply skipped_false in Hskip. destruct Hskip as [_ Habs].
    rewrite (set_absent _ _ _ Habs), values_app.
    apply Z.leb_le in Hcap. cbn [JobMap.values map snd].
    cbn [JobMap.values] in Hcap. rewrite Hcap. reflexivity.
Qed.

Lemma countByCountry_by_containment_witness :
  countByCountry northernIrelandMap "Ireland" = 1%Z
  /\ (forall w : World,
         runSearches [irelandCap1] northernIrelandMap w
         = (northernIrelandMap, w))
  /\ fst (fst (processListing irelandCap2 dublinRaw northernIrelandMap
                 (mkWorld [] [])))
     = Return.
Proof.
  destruct (countByCountry_by_containment northernIrelandMap "Ireland")
    as [Hcount [_ [Hskip Hreturn]]].
  split; [|split].
  - rewrite Hcount. vm_compute. reflexivity.
  - intros w. rewrite (Hskip irelandCap1 [] w eq_refl).
    + reflexivity.
    + vm_compute. discriminate.
  - apply (Hreturn irelandCap2 dublinRaw (mkWorld [] [])
             (snd (visaOrFallback (RawJob.jobUrl dublinRaw)
                                  (delay 800 (mkWorld [] []))))
             visaFallback eq_refl).
    + vm_compute. reflexivity.
    + cbn. lia.
    + vm_compute. reflexivity.
    + vm_compute. discriminate.
Defined.

(** ** The output document *)

Section Sorting.

Variable A : Type.
Variable cmp : A -> A -> Z.
Hypothesis cmp_total : forall x y : A, (0 < cmp x y)%Z -> (cmp y x <= 0)%Z.

Lemma insert_HdRel (x y : A) (l : list A) :
  HdRel (notAfter cmp) y l -> notAfter cmp y x -> HdRel (notAfter cmp) y (insert cmp x l).
Proof.
  intros Hl Hyx. destruct l as [|z l]; cbn [insert].
  - now constructor.
  - destruct (cmp x z <=? 0)%Z; constructor;
      [exact Hyx | now inversion Hl].
Qed.

Lemma insert_Sorted (x : A) (l : list A) :
  Sorted (notAfter cmp) l -> Sorted (notAfter cmp) (insert cmp x l).
Proof.
  induction 1 as [|y l Hs IH Hd]; cbn [insert].
  - repeat constructor.
  - destruct (cmp x y <=? 0)%Z eqn:E.
    + constructor; [now constructor|].
      constructor. unfold notAfter. apply Z.leb_le. exact E.
    + constructor; [exact IH|].
      apply insert_HdRel; [exact Hd|].
      unfold notAfter. apply cmp_total. apply Z.leb_gt in E. lia.
Qed.

Lemma sort_Sorted (l : list A) : Sorted (notAfter cmp) (sort cmp l).
Proof.
  induction l as [|x l IH]; cbn [sort]; [constructor|].
  now apply insert_Sorted.
Qed.

Lemma insert_Permutation (x : A) (l : list A) :
  Permutation (insert cmp x l) (x :: l).
Proof.
  induction l as [|y l IH]; cbn [insert]; [reflexivity|].
  destruct (cmp x y <=? 0)%Z; [reflexivity|].
  rewrite IH. apply perm_swap.
Qed.

Lemma sort_Permutation (l : list A) : Permutation (sort cmp l) l.
Proof.
  induction l as [|x l IH]; cbn [sort]; [reflexivity|].
  rewrite insert_Permutation. now constructor.
Qed.

End Sorting.

Lemma Sorted_adjacent {A : Type} (R : A -> A -> Prop) (l : list A) :
  Sorted R l ->
  forall (i : nat) (a b : A),
    nth_error l i = Some a -> nth_error l (S i) = Some b -> R a b.
Proof.
  induction 1 as [|x l Hs IH Hd]; intros i a b Ha Hb.
  - destruct i; discriminate Ha.
  - destruct i as [|i].
    + cbn in Ha, Hb. injection Ha as <-.
      destruct l as [|y l]; [discriminate Hb|].
      cbn in Hb. injection Hb as <-. now inversion Hd.
    + exact (IH i a b Ha Hb).
Qed.

Lemma compareJobs_total (localeCompare : string -> string -> Z) :
  antisymmetric localeCompare ->
  forall a b : JobEntry.t,
    (0 < compareJobs localeCompare a b)%Z ->
    (compareJobs localeCompare b a <= 0)%Z.
Proof.
  intros Hanti a b. unfold compareJobs. cbv zeta.
  pose proof (Hanti (JobEntry.country a) (JobEntry.country b)) as Hc.
  pose proof (Hanti (JobEntry.title a) (JobEntry.title b)) as Ht.
  pose proof (Z.sgn_spec (localeCompare (JobEntry.country a)
                                        (JobEntry.country b))).
  pose proof (Z.sgn_spec (localeCompare (JobEntry.country b)
                                        (JobEntry.country a))).
  pose proof (Z.sgn_spec (localeCompare (JobEntry.title a)
                                        (JobEntry.title b))).
  pose proof (Z.sgn_spec (localeCompare (JobEntry.title b)
                                        (JobEntry.title a))).
  destruct (Z.eqb_spec (localeCompare (JobEntry.country a)
                                      (JobEntry.country b)) 0);
    destruct (Z.eqb_spec (localeCompare (JobEntry.country b)
                                        (JobEntry.country a)) 0);
    lia.
Qed.

Lemma compareJobs_inOrder (localeCompare : string -> string -> Z)
      (a b : JobEntry.t) :
  (compareJobs localeCompare a b <= 0)%Z -> inOrder localeCompare a b.
Proof.
  unfold compareJobs, inOrder. cbv zeta.
  destruct (Z.eqb_spec (localeCompare (JobEntry.country a)
                                      (JobEntry.country b)) 0); lia.
Qed.

Lemma codeUnitCompare_antisymmetric : antisymmetric codeUnitCompare.
Proof.
  intros a b. unfold codeUnitCompare.
  rewrite (String.compare_antisym a b).
  destruct (String.compare b a); reflexivity.
Qed.

(** The document holds the accumulated records, each once, and their
    number. *)
Lemma main_jobs_permutation (localeCompare : string -> string -> Z) (w : World) :
  Permutation (jobs (fst (main localeCompare w)))
              (JobMap.values (fst (runSearches SEARCHES JobMap.empty w)))
  /\ total (fst (main localeCompare w)) =
     JobMap.size (fst (runSearches SEARCHES JobMap.empty w)).
Proof.
  unfold main.
  destruct (runSearches SEARCHES JobMap.empty w) as [JOBS w'].
  cbn [fst jobs total]. split.
  - apply sort_Permutation.
  - unfold JobMap.size, JobMap.values.
    rewrite (Permutation_length (sort_Permutation _ _ _)), length_map.
    reflexivity.
Qed.

(** C8 -- the [jobs] of the output are sorted: of two adjacent records
    the first one's country compares less than or equal to the second
    one's, and when the two countries compare equal so do the titles.
    The comparator [localeCompare] is only asked to change sign when its
    arguments are swapped. *)
Theorem main_jobs_sorted (localeCompare : string -> string -> Z) (w : World) :
  antisymmetric localeCompare ->
  forall (i : nat) (a b : JobEntry.t),
    nth_error (jobs (fst (main localeCompare w))) i = Some a ->
    nth_error (jobs (fst (main localeCompare w))) (S i) = Some b ->
    (localeCompare (JobEntry.country a) (JobEntry.country b) <= 0)%Z
    /\ (localeCompare (JobEntry.country a) (JobEntry.country b) = 0%Z ->
        (localeCompare (JobEntry.title a) (JobEntry.title b) <= 0)%Z).
Proof.
  intros Hanti i a b Ha Hb.
  apply (compareJobs_inOrder localeCompare a b).
  unfold main in Ha, Hb.
  destruct (runSearches SEARCHES JobMap.empty w) as [JOBS w'].
  cbn [fst jobs] in Ha, Hb.
  exact (Sorted_adjacent _ _
           (sort_Sorted _ _ (compareJobs_total localeCompare Hanti)
                        (JobMap.values JOBS))
           i a b Ha Hb).
Qed.

Lemma main_jobs_sorted_witness :
  let out := jobs (fst (main codeUnitCompare threeListingsWorld)) in
  let a := nth 0 out northernIrelandJob in
  let b := nth 1 out northernIrelandJob in
  (JobEntry.title a = "Brand Lead" /\ JobEntry.title b = "Content Creator")
  /\ inOrder codeUnitCompare a b.
Proof.
  intros out a b. split.
  - vm_compute. split; reflexivity.
  - apply (main_jobs_sorted codeUnitCompare threeListingsWorld
             codeUnitCompare_antisymmetric 0 a b);
      vm_compute; reflexivity.
Defined.

(** ** Sample runs *)

Example inferCountry_listed :
  inferCountry "Amsterdam, North Holland, Netherlands" = Some "Netherlands".
Proof. vm_compute. reflexivity. Qed.

Example inferCountry_last_segment :
  inferCountry "Remote, Antarctica" = Some "Antarctica".
Proof. vm_compute. reflexivity. Qed.

Example inferCountry_none : inferCountry "Nowhere" = None.
Proof. vm_compute. reflexivity. Qed.

(** A location in Northern Ireland is filed under "Ireland", the first
    listed name that it contains. *)
Example inferCountry_northern_ireland :
  inferCountry "Belfast, Northern Ireland" = Some "Ireland".
Proof. vm_compute. reflexivity. Qed.

Example searchUrl_second_page :
  searchUrl (SearchConfig.mk "Belgium" "Brussels, Brussels Region, Belgium"
               "social media manager" "Social Media Manager (Belgium)" 4) 25
  = "https://r.jina.ai/https://www.linkedin.com/jobs-guest/jobs/api/seeMoreJobPostings/search?keywords=social+media+manager&location=Brussels%2C+Brussels+Region%2C+Belgium&f_TPR=r604800&f_WT=2&start=25".
Proof. vm_compute. reflexivity. Qed.

(** The same block twice on a page gives one record. *)
Example sameListingTwice_once :
  JobMap.keys (fst (processSearch belgiumCap2 JobMap.empty sameListingTwiceWorld))
  = ["https://be.linkedin.com/jobs/view/1"].
Proof. vm_compute. reflexivity. Qed.

(** With the positive and the negative phrase both present the positive
    one wins, wherever they stand. *)
Example classifyVisa_both_phrases :
  VisaInfo.status
    (classifyVisa "We do not provide sponsorship. No visa support either.")
  = Yes.
Proof. vm_compute. reflexivity. Qed.

(** * Further properties *)

(** ** Match-reason synthesizer *)

Lemma setAdd_In (reasons : list string) (reason x : string) :
  In x (setAdd reasons reason) <-> In x reasons \/ x = reason.
Proof.
  unfold setAdd.
  destruct (existsb (String.eqb reason) reasons) eqn:E.
  - split; [tauto|]. intros [H|H]; [exact H|]. subst x.
    apply existsb_exists in E. destruct E as [y [Hy Ey]].
    apply String.eqb_eq in Ey. now subst y.
  - rewrite in_app_iff. simpl. intuition congruence.
Qed.

Lemma setAdd_NoDup (reasons : list string) (reason : string) :
  NoDup reasons -> NoDup (setAdd reasons reason).
Proof.
  intros H. unfold setAdd.
  destruct (existsb (String.eqb reason) reasons) eqn:E; [exact H|].
  apply NoDup_snoc; [exact H|]. intros HIn.
  assert (T : existsb (String.eqb reason) reasons = true).
  { apply existsb_exists. exists reason. split; [exact HIn|].
    apply String.eqb_refl. }
  congruence.
Qed.

(** [setAdd] keeps what is there and adds at most one member at the end. *)
Lemma setAdd_extends (reasons : list string) (reason : string) :
  setAdd reasons reason = reasons
  \/ setAdd reasons reason = (reasons ++ [reason])%list.
Proof.
  unfold setAdd. destruct (existsb _ reasons); auto.
Qed.

Section Rules.

Variable corpus : string.

Lemma fold_step_In (rules : list (list string * string)) :
  forall (init : list string) (x : string),
    In x (fold_left (step corpus) rules init) <->
    In x init \/ exists rule, In rule rules /\ fires corpus rule = true /\ snd rule = x.
Proof.
  induction rules as [|rule rules IH]; intros init x; cbn [fold_left].
  - split; [tauto|]. intros [H|[rule [[] _]]]. exact H.
  - rewrite IH. unfold step.
    destruct (fires corpus rule) eqn:F.
    + rewrite setAdd_In. split.
      * intros [[H|H]|[r [Hr [Fr Er]]]].
        -- now left.
        -- right. exists rule. repeat split; auto. now left.
        -- right. exists r. repeat split; auto. now right.
      * intros [H|[r [[Hr|Hr] [Fr Er]]]].
        -- left. now left.
        -- subst r. left. right. now symmetry.
        -- right. exists r. auto.
    + split.
      * intros [H|[r [Hr [Fr Er]]]]; [now left|].
        right. exists r. repeat split; auto. now right.
      * intros [H|[r [[Hr|Hr] [Fr Er]]]]; [now left | congruence |].
        right. exists r. auto.
Qed.

Lemma fold_step_NoDup (rules : list (list string * string)) :
  forall init : list string,
    NoDup init -> NoDup (fold_left (step corpus) rules init).
Proof.
  induction rules as [|rule rules IH]; intros init H; cbn [fold_left];
    [exact H|].
  apply IH. unfold step. destruct (fires corpus rule); [|exact H].
  now apply setAdd_NoDup.
Qed.

Lemma fold_step_extends (rules : list (list string * string)) :
  forall init : list string,
    exists added : list string,
      fold_left (step corpus) rules init = (init ++ added)%list
      /\ (List.length added <= List.length rules)%nat.
Proof.
  induction rules as [|rule rules IH]; intros init; cbn [fold_left].
  - exists []. rewrite app_nil_r. split; [reflexivity | cbn; lia].
  - destruct (IH (step corpus init rule)) as [added [E L]].
    unfold step in E. unfold step. destruct (fires corpus rule).
    + destruct (setAdd_extends init (snd rule)) as [S|S]; rewrite S in *.
      * exists added. split; [exact E | cbn; lia].
      * exists (snd rule :: added). rewrite E, <- app_assoc.
        split; [reflexivity | cbn; lia].
    + exists added. split; [exact E | cbn; lia].
Qed.

End Rules.

Lemma buildMatchReasons_fold (raw : RawJob.t) (detailText : string) :
  buildMatchReasons raw detailText =
  fold_left (step (corpusOf raw detailText)) skillRules
    ["Matches " ++ SearchConfig.label (RawJob.search raw)].
Proof. reflexivity. Qed.

(** Head, distinctness and number of the reasons. *)
Lemma buildMatchReasons_head (raw : RawJob.t) (detailText : string) :
  (exists rest : list string,
      buildMatchReasons raw detailText =
      ("Matches " ++ SearchConfig.label (RawJob.search raw)) :: rest)
  /\ NoDup (buildMatchReasons raw detailText)
  /\ (1 <= List.length (buildMatchReasons raw detailText) <= 10)%nat.
Proof.
  rewrite buildMatchReasons_fold.
  destruct (fold_step_extends (corpusOf raw detailText) skillRules
              ["Matches " ++ SearchConfig.label (RawJob.search raw)])
    as [added [E L]].
  split; [|split].
  - exists added. rewrite E. reflexivity.
  - apply fold_step_NoDup. constructor; [intros [] | constructor].
  - rewrite E. cbn [List.length app]. cbn [List.length skillRules] in L. lia.
Qed.

(** X1 -- the reasons of a listing begin with "Matches <label>" of its
    search, hold no reason twice and count at most ten, the label and
    one reason per rule. *)
Theorem buildMatchReasons_shape (raw : RawJob.t) (detailText : string) :
  (exists rest : list string,
      buildMatchReasons raw detailText =
      ("Matches " ++ SearchConfig.label (RawJob.search raw)) :: rest)
  /\ NoDup (buildMatchReasons raw detailText)
  /\ (1 <= List.length (buildMatchReasons raw detailText) <= 10)%nat.
Proof.
  exact (buildMatchReasons_head raw detailText).
Qed.

(** X2 -- a reason other than the label is listed exactly when one of
    the keywords of its rule occurs in the lower-cased title and detail
    text, a space between them. *)
Theorem buildMatchReasons_reason (raw : RawJob.t) (detailText reason : string) :
  In reason (buildMatchReasons raw detailText) <->
  reason = "Matches " ++ SearchConfig.label (RawJob.search raw)
  \/ exists (keywords : list string) (kw : string),
       In (keywords, reason) skillRules
       /\ In kw keywords
       /\ Js.includes
            (Js.toLowerCase (RawJob.title raw ++ " " ++ detailText)) kw = true.
Proof.
  rewrite buildMatchReasons_fold, fold_step_In. split.
  - intros [[H|[]]|[[keywords r] [Hr [F E]]]]; [left; now symmetry|].
    right. cbn [fst snd] in *. subst r.
    unfold fires in F. apply existsb_exists in F.
    destruct F as [kw [Hkw Hocc]]. exists keywords, kw. auto.
  - intros [H|[keywords [kw [Hr [Hkw Hocc]]]]].
    + left. left. now symmetry.
    + right. exists (keywords, reason). split; [exact Hr|].
      split; [|reflexivity]. unfold fires. apply existsb_exists.
      exists kw. auto.
Qed.

(** ** Rate-limited fetcher, further *)

Ltac fetch_cases response E B :=
  destruct (Z.eq_dec (status response) 429) as [E|E];
  [ rewrite (fetchTextOn_429 _ _ _ _ _ E)
  | destruct (rateLimitedBody (body response)) eqn:B;
    [ rewrite (fetchTextOn_marked _ _ _ _ _ E B)
    | rewrite (fetchTextOn_plain _ _ _ _ _ E B) ] ].

Lemma fetchTextOn_returned (url : string) (script : list Reply) :
  forall (attempt : Z) (log : list Event) (text : string) (w' : World),
    fetchTextOn url attempt script log = (Returned text, w') ->
    rateLimitedBody text = false
    /\ exists response : Response,
         In (Replied response) script
         /\ body response = text
         /\ ok response = true
         /\ status response <> 429%Z.
Proof.
  induction script as [|reply rest IH]; intros attempt log text w' H.
  - discriminate H.
  - destruct reply as [response|]; [|discriminate H].
    revert H. fetch_cases response E B.
    + destruct (attempt >? 4)%Z; [discriminate|].
      intros H. destruct (IH _ _ _ _ H) as [Hb [r [Hr Hrest]]].
      split; [exact Hb|]. exists r. split; [now right | exact Hrest].
    + destruct (attempt >? 4)%Z; [discriminate|].
      intros H. destruct (IH _ _ _ _ H) as [Hb [r [Hr Hrest]]].
      split; [exact Hb|]. exists r. split; [now right | exact Hrest].
    + destruct (ok response) eqn:O; [|discriminate].
      intros H. injection H as <- _.
      split; [exact B|]. exists response. repeat split; auto. now left.
Qed.

(** X3 -- what [fetchText] returns is the body of a reply of the script
    with a 2xx status, and never a rate-limit notice: it holds neither
    "HTTP ERROR 429" nor "Too Many Requests", in any letter case. *)
Theorem fetchText_returned (url : string) (w w' : World) (text : string) :
  fetchText url w = (Returned text, w') ->
  rateLimitedBody text = false
  /\ exists response : Response,
       In (Replied response) (pending w)
       /\ body response = text
       /\ ok response = true
       /\ status response <> 429%Z.
Proof.
  intros H. exact (fetchTextOn_returned url (pending w) 1 (trace w) text w' H).
Qed.

Lemma fetchText_returned_witness :
  rateLimitedBody "fine" = false
  /\ exists response : Response,
       In (Replied response) [Replied tooMany; Replied fine]
       /\ body response = "fine"
       /\ ok response = true
       /\ status response <> 429%Z.
Proof.
  apply (fetchText_returned "u" (mkWorld [Replied tooMany; Replied fine] [])
           (mkWorld [] [Fetch "u"; Delay 3000; Fetch "u"]) "fine").
  vm_compute. reflexivity.
Defined.

Ltac split_attempt A :=
  match goal with
  | |- context [(?a >? 4)%Z] =>
      destruct (a >? 4)%Z eqn:A; rewrite Z.gtb_ltb in A;
      [apply Z.ltb_lt in A | apply Z.ltb_ge in A]
  end.

Lemma fetchTextOn_waited (url : string) (script : list Reply) :
  forall (attempt : Z) (log : list Event),
    (1 <= attempt)%Z ->
    (waited log <= waited (trace (snd (fetchTextOn url attempt script log)))
     <= waited log
        + if (attempt >? 4)%Z then 0 else 2000 * (5 - attempt) * (attempt + 4))%Z.
Proof.
  induction script as [|reply rest IH]; intros attempt log Ha.
  - cbn [fetchTextOn snd trace waited]. split_attempt A; nia.
  - destruct reply as [response|];
      [|cbn [fetchTextOn snd trace waited]; split_attempt A; nia].
    fetch_cases response E B.
    + split_attempt A; [cbn [snd trace waited]; lia|].
      specialize (IH (attempt + 1)%Z
                     (Delay (3000 * attempt) :: Fetch url :: log)
                     ltac:(lia)).
      cbn [waited] in IH. revert IH. split_attempt A'; nia.
    + split_attempt A; [cbn [snd trace waited]; lia|].
      specialize (IH (attempt + 1)%Z
                     (Delay (4000 * attempt) :: Fetch url :: log)
                     ltac:(lia)).
      cbn [waited] in IH. revert IH. split_attempt A'; nia.
    + destruct (ok response); cbn [snd trace waited]; split_attempt A; nia.
Qed.

(** X4 -- one call of [fetchText] waits 40 seconds at most, whatever
    the replies: four waits of at most 4000 ms times the attempt. *)
Theorem fetchText_waits_at_most (url : string) (w : World) :
  (waited (trace w) <= waited (trace (snd (fetchText url w)))
   <= waited (trace w) + 40000)%Z.
Proof.
  pose proof (fetchTextOn_waited url (pending w) 1 (trace w) ltac:(lia)) as H.
  cbn in H. exact H.
Qed.

Lemma fetchTextOn_exhausted (url : string) (script : list Reply) :
  forall (attempt : Z) (log : list Event) (u : string) (w' : World),
    (1 <= attempt <= 5)%Z ->
    fetchTextOn url attempt script log = (Threw (RetriesExhausted u), w') ->
    u = url
    /\ requests (trace w') = (requests log + (6 - attempt))%Z
    /\ (waited log + 1500 * (5 - attempt) * (attempt + 4)
        <= waited (trace w'))%Z.
Proof.
  induction script as [|reply rest IH]; intros attempt log u w' Ha H.
  - discriminate H.
  - destruct reply as [response|]; [|discriminate H].
    revert H. fetch_cases response E B.
    + destruct (attempt >? 4)%Z eqn:A.
      * intros H. injection H as <- <-. cbn [trace requests waited].
        rewrite Z.gtb_ltb in A. apply Z.ltb_lt in A.
        assert (attempt = 5%Z) as -> by lia.
        repeat split; lia.
      * rewrite Z.gtb_ltb in A. apply Z.ltb_ge in A. intros H.
        destruct (IH (attempt + 1)%Z _ _ _ ltac:(lia) H) as [Hu [Hr Hw]].
        cbn [requests waited] in Hr, Hw. repeat split; [exact Hu|lia|nia].
    + destruct (attempt >? 4)%Z eqn:A.
      * intros H. injection H as <- <-. cbn [trace requests waited].
        rewrite Z.gtb_ltb in A. apply Z.ltb_lt in A.
        assert (attempt = 5%Z) as -> by lia.
        repeat split; lia.
      * rewrite Z.gtb_ltb in A. apply Z.ltb_ge in A. intros H.
        destruct (IH (attempt + 1)%Z _ _ _ ltac:(lia) H) as [Hu [Hr Hw]].
        cbn [requests waited] in Hr, Hw. repeat split; [exact Hu|lia|nia].
    + destruct (ok response); discriminate.
Qed.

(** X5 -- [fetchText] gives up with [RetriesExhausted] only at its
    fifth request, after four waits that add up to 30 seconds at least;
    the error carries the URL that was asked for. *)
Theorem fetchText_exhausted (url u : string) (w w' : World) :
  fetchText url w = (Threw (RetriesExhausted u), w') ->
  u = url
  /\ requests (trace w') = (requests (trace w) + 5)%Z
  /\ (waited (trace w) + 30000 <= waited (trace w'))%Z.
Proof.
  intros H.
  destruct (fetchTextOn_exhausted url (pending w) 1 (trace w) u w'
              ltac:(lia) H) as [Hu [Hr Hw]].
  repeat split; [exact Hu | lia | lia].
Qed.

Lemma fetchText_exhausted_witness :
  requests (trace (snd (fetchText "u" (mkWorld (repeat (Replied tooMany) 6) []))))
  = 5%Z.
Proof.
  destruct (fetchText_exhausted "u" "u" (mkWorld (repeat (Replied tooMany) 6) [])
              (snd (fetchText "u" (mkWorld (repeat (Replied tooMany) 6) []))))
    as [_ [H _]].
  - vm_compute. reflexivity.
  - exact H.
Defined.

(** ** Strings, further *)

Lemma startsWith_iff (s kw : string) :
  Js.startsWith s kw = true <-> exists rest, s = kw ++ rest.
Proof.
  split; [apply startsWith_append|].
  intros [rest ->]. unfold Js.startsWith.
  induction kw as [|c kw IH]; cbn [append String.prefix].
  - destruct rest; reflexivity.
  - destruct (ascii_dec c c) as [_|N]; [exact IH | now elim N].
Qed.

Lemma includes_iff (s kw : string) :
  Js.includes s kw = true <-> exists pre post, s = pre ++ kw ++ post.
Proof.
  split.
  - induction s as [|c s IH]; cbn [Js.includes]; intros H.
    + rewrite orb_false_r in H. apply startsWith_iff in H.
      destruct H as [rest E]. exists EmptyString, rest. exact E.
    + apply orb_true_iff in H. destruct H as [H|H].
      * apply startsWith_iff in H. destruct H as [rest E].
        exists EmptyString, rest. exact E.
      * destruct (IH H) as [pre [post E]].
        exists (String c pre), post. cbn. now rewrite E.
  - intros [pre [post ->]].
    induction pre as [|c pre IH]; cbn [append].
    + apply includes_startsWith, startsWith_iff. now exists post.
    + now apply includes_tail.
Qed.

(** Whatever occurs in a part occurs in the whole. *)
Lemma includes_inside (pre a post kw : string) :
  Js.includes a kw = true -> Js.includes (pre ++ a ++ post) kw = true.
Proof.
  intros H. apply includes_iff in H. destruct H as [p [q ->]].
  apply includes_iff. exists (pre ++ p), (q ++ post).
  now rewrite !append_assoc.
Qed.

Lemma smap_append (f : ascii -> ascii) (a b : string) :
  Js.smap f (a ++ b) = Js.smap f a ++ Js.smap f b.
Proof.
  induction a as [|c a IH]; cbn; [reflexivity | now rewrite IH].
Qed.

Lemma toLowerCase_append (a b : string) :
  Js.toLowerCase (a ++ b) = Js.toLowerCase a ++ Js.toLowerCase b.
Proof. apply smap_append. Qed.

Lemma length_append (a b : string) :
  String.length (a ++ b) = (String.length a + String.length b)%nat.
Proof.
  induction a as [|c a IH]; cbn; [reflexivity | now rewrite IH].
Qed.

Lemma reverse_String (c : ascii) (s : string) :
  Js.reverse (String c s) = Js.reverse s ++ String c "".
Proof.
  unfold Js.reverse. cbn [Js.rev_string]. apply rev_string_append.
Qed.

Lemma reverse_append (a b : string) :
  Js.reverse (a ++ b) = Js.reverse b ++ Js.reverse a.
Proof.
  induction a as [|c a IH]; cbn [append].
  - now rewrite append_empty_r.
  - now rewrite !reverse_String, IH, append_assoc.
Qed.

Lemma reverse_involutive (s : string) : Js.reverse (Js.reverse s) = s.
Proof.
  induction s as [|c s IH]; [reflexivity|].
  now rewrite reverse_String, reverse_append, IH.
Qed.

Lemma length_reverse (s : string) :
  String.length (Js.reverse s) = String.length s.
Proof.
  induction s as [|c s IH]; [reflexivity|].
  rewrite reverse_String, length_append, IH. cbn. lia.
Qed.

(** [trimStart] cuts a prefix off, [trimEnd] a suffix, [trim] both. *)
Lemma trimStart_suffix (s : string) : exists a, s = a ++ Js.trimStart s.
Proof.
  induction s as [|c s [a IH]]; cbn [Js.trimStart].
  - now exists EmptyString.
  - destruct (Js.isSpace c).
    + exists (String c a). cbn. now rewrite <- IH.
    + now exists EmptyString.
Qed.

Lemma trimEnd_prefix (s : string) : exists b, s = Js.trimEnd s ++ b.
Proof.
  unfold Js.trimEnd.
  destruct (trimStart_suffix (Js.reverse s)) as [a E].
  exists (Js.reverse a).
  rewrite <- reverse_append, <- E. now rewrite reverse_involutive.
Qed.

Lemma trim_inside (s : string) : exists a b, s = a ++ Js.trim s ++ b.
Proof.
  unfold Js.trim.
  destruct (trimStart_suffix s) as [a Ea].
  destruct (trimEnd_prefix (Js.trimStart s)) as [b Eb].
  exists a, b. now rewrite <- Eb.
Qed.

Lemma length_trim (s : string) :
  (String.length (Js.trim s) <= String.length s)%nat.
Proof.
  destruct (trim_inside s) as [a [b E]].
  rewrite E at 2. rewrite !length_append. lia.
Qed.

Lemma length_substring (n m : nat) (s : string) :
  (String.length (substring n m s) <= m)%nat.
Proof.
  revert n m. induction s as [|c s IH]; intros n m.
  - destruct n, m; cbn; lia.
  - destruct n as [|n].
    + destruct m as [|m]; cbn; [lia|]. specialize (IH 0%nat m). lia.
    + cbn. apply IH.
Qed.

Lemma indexOfFrom_range (s kw : string) :
  forall i : Z,
    (0 <= i)%Z ->
    (Js.indexOfFrom i s kw = -1 /\ Js.includes s kw = false)%Z
    \/ (i <= Js.indexOfFrom i s kw /\ Js.includes s kw = true)%Z.
Proof.
  induction s as [|c s IH]; intros i Hi; cbn [Js.indexOfFrom Js.includes].
  - destruct (Js.startsWith "" kw); [right | left]; split; auto; lia.
  - destruct (Js.startsWith (String c s) kw).
    + right. split; [lia | reflexivity].
    + cbn [orb]. destruct (IH (i + 1)%Z ltac:(lia)) as [[E I]|[E I]].
      * left. auto.
      * right. split; [lia | exact I].
Qed.

(** ** Classification rules, further *)

Lemma join_inside (sep tag : string) (l : list string) :
  In tag l -> exists pre post, Js.join sep l = pre ++ tag ++ post.
Proof.
  induction l as [|x l IH]; intros H; [destruct H|].
  destruct H as [->|H].
  - destruct l as [|y l].
    + exists EmptyString, EmptyString. cbn. now rewrite append_empty_r.
    + exists EmptyString, (sep ++ Js.join sep (y :: l)). reflexivity.
  - destruct (IH H) as [pre [post E]].
    destruct l as [|y l]; [destruct H|].
    exists (x ++ sep ++ pre), post.
    change (Js.join sep (x :: y :: l)) with (x ++ sep ++ Js.join sep (y :: l)).
    now rewrite E, !append_assoc.
Qed.

Lemma includes_lower_inside (pre a post kw : string) :
  Js.includes (Js.toLowerCase a) kw = true ->
  Js.includes (Js.toLowerCase (pre ++ a ++ post)) kw = true.
Proof.
  intros H. rewrite !toLowerCase_append. now apply includes_inside.
Qed.

(** X6 -- a listing counts as remote as soon as its location or one of
    its meta tags holds "remote" or "work from home", in any letter
    case. *)
Theorem isRemote_location_or_tag (meta : list string) (location phrase : string) :
  phrase = "remote" \/ phrase = "work from home" ->
  Js.includes (Js.toLowerCase location) phrase = true
  \/ (exists tag, In tag meta
                  /\ Js.includes (Js.toLowerCase tag) phrase = true) ->
  isRemote meta location = true.
Proof.
  intros Hphrase Hocc.
  assert (T : Js.includes
                (Js.toLowerCase (location ++ " " ++ Js.join " " meta))
                phrase = true).
  { destruct Hocc as [H|[tag [HIn H]]].
    - apply (includes_lower_inside EmptyString location
               (" " ++ Js.join " " meta) phrase H).
    - destruct (join_inside " " tag meta HIn) as [pre [post E]].
      rewrite E.
      replace (location ++ " " ++ pre ++ tag ++ post)
        with ((location ++ " " ++ pre) ++ tag ++ post)
        by (now rewrite !append_assoc).
      now apply includes_lower_inside. }
  unfold isRemote. cbv zeta.
  destruct Hphrase as [-> | ->]; rewrite T; [reflexivity | apply orb_true_r].
Qed.

Lemma isRemote_location_or_tag_witness :
  isRemote ["Full-time"; "Work From Home available"] "Ghent, Belgium" = true.
Proof.
  apply (isRemote_location_or_tag _ _ "work from home").
  - now right.
  - right. exists "Work From Home available". split.
    + simpl. tauto.
    + vm_compute. reflexivity.
Defined.

(** ** Visa evidence extractor, further *)

(** The bound on a snippet, and when there is none. *)
Lemma extractEvidence_length (text keyword : string) :
  match extractEvidence text keyword with
  | Some evidence =>
      (String.length evidence <= 360)%nat
      /\ Js.includes (Js.toLowerCase (Re.replace spacesRe " " text))
                     (Js.toLowerCase keyword) = true
  | None =>
      Js.includes (Js.toLowerCase (Re.replace spacesRe " " text))
                  (Js.toLowerCase keyword) = false
  end.
Proof.
  unfold extractEvidence. cbv zeta.
  set (clean := Re.replace spacesRe " " text).
  unfold Js.indexOf.
  destruct (indexOfFrom_range (Js.toLowerCase clean) (Js.toLowerCase keyword)
              0 ltac:(lia)) as [[E I]|[E I]].
  - rewrite E. cbn. exact I.
  - set (index := Js.indexOfFrom 0 (Js.toLowerCase clean)
                    (Js.toLowerCase keyword)) in *.
    assert (N : (index =? -1)%Z = false) by (apply Z.eqb_neq; lia).
    rewrite N. split; [|exact I].
    eapply Nat.le_trans; [apply length_trim|].
    unfold Js.slice. eapply Nat.le_trans; [apply length_substring|].
    unfold Js.clampIndex, Js.len.
    assert (L : (0 <= Z.of_nat (String.length clean))%Z) by lia.
    set (n := Z.of_nat (String.length clean)) in *.
    destruct (Z.max 0 (index - 160) <? 0)%Z eqn:A;
      [apply Z.ltb_lt in A; lia|].
    destruct (Z.min n (index + 200) <? 0)%Z eqn:B;
      [apply Z.ltb_lt in B; lia|].
    lia.
Qed.

(** X7 -- an evidence snippet is at most 360 code units long (160
    before the phrase, 200 from its start), and it is left out exactly
    when the phrase does not occur, letter case aside, in the text with
    its runs of white space collapsed. *)
Theorem extractEvidence_bounded (text keyword : string) :
  match extractEvidence text keyword with
  | Some evidence =>
      (String.length evidence <= 360)%nat
      /\ Js.includes (Js.toLowerCase (Re.replace spacesRe " " text))
                     (Js.toLowerCase keyword) = true
  | None =>
      Js.includes (Js.toLowerCase (Re.replace spacesRe " " text))
                  (Js.toLowerCase keyword) = false
  end.
Proof.
  exact (extractEvidence_length text keyword).
Qed.

(** ** Canonical URLs *)

(** X8 -- cutting the query off is idempotent, and a URL without a
    question mark is its own canonical form. *)
Theorem canonicalUrl_idempotent (url : string) :
  canonicalUrl (canonicalUrl url) = canonicalUrl url
  /\ (Js.includes url "?" = false -> canonicalUrl url = url).
Proof.
  assert (Fix : forall u, Js.includes u "?" = false -> canonicalUrl u = u).
  { intros u H. unfold canonicalUrl. now rewrite (split_absent _ _ H). }
  split; [|apply Fix].
  destruct (canonicalUrl_strips_query url) as [rest [_ [H _]]].
  now apply Fix.
Qed.

(** ** Splitting on one character *)

Lemma splitAux_nonempty (sep : string) (s : string) :
  forall (skip : nat) (cur : string), Js.splitAux sep skip cur s <> [].
Proof.
  induction s as [|c s IH]; intros skip cur; cbn [Js.splitAux].
  - discriminate.
  - destruct skip; [|apply IH].
    destruct (Js.startsWith (String c s) sep); [discriminate | apply IH].
Qed.

Lemma pop_cons {A : Type} (a : A) (l : list A) :
  l <> [] -> Js.pop (a :: l) = Js.pop l.
Proof.
  destruct l; [congruence | reflexivity].
Qed.

Lemma includes_single_append (q : ascii) (a b : string) :
  Js.includes (a ++ b) (String q "") =
  Js.includes a (String q "") || Js.includes b (String q "").
Proof.
  induction a as [|c a IH]; cbn [append].
  - reflexivity.
  - cbn [Js.includes]. rewrite !startsWith_single, IH.
    destruct (ascii_dec q c); reflexivity.
Qed.

(** The last piece of a split on one character: it ends the string,
    does not hold the character, and what stands before it is empty or
    ends with the character. *)
Lemma splitAux_single_last (q : ascii) (s : string) :
  forall cur x : string,
    Js.includes (Js.reverse cur) (String q "") = false ->
    Js.pop (Js.splitAux (String q "") 0 cur s) = Some x ->
    exists pre : string,
      Js.reverse cur ++ s = pre ++ x
      /\ Js.includes x (String q "") = false
      /\ (pre = EmptyString \/ exists p, pre = p ++ String q "").
Proof.
  induction s as [|c s IH]; intros cur x Hcur H.
  - cbn in H. injection H as <-. exists EmptyString.
    rewrite append_empty_r. auto.
  - cbn [Js.splitAux] in H. rewrite startsWith_single in H.
    destruct (ascii_dec q c) as [<-|N].
    + cbn [String.length Nat.sub] in H.
      rewrite pop_cons in H by apply splitAux_nonempty.
      destruct (IH EmptyString x eq_refl H) as [pre [E [I P]]].
      cbn in E. exists (Js.reverse cur ++ String q pre).
      split; [|split; [exact I|]].
      * rewrite E, append_assoc. reflexivity.
      * right. destruct P as [->|[p ->]].
        -- now exists (Js.reverse cur).
        -- exists (Js.reverse cur ++ String q p).
           rewrite append_assoc. reflexivity.
    + assert (Hcur' : Js.includes (Js.reverse (String c cur)) (String q "")
                      = false).
      { rewrite reverse_String, includes_single_append, Hcur.
        cbn [Js.includes orb]. rewrite startsWith_single.
        destruct (ascii_dec q c); [contradiction | reflexivity]. }
      destruct (IH (String c cur) x Hcur' H) as [pre [E [I P]]].
      exists pre. rewrite <- reverse_cons. auto.
Qed.

Lemma split_single_last (q : ascii) (s x : string) :
  Js.pop (Js.split s (String q "")) = Some x ->
  exists pre : string,
    s = pre ++ x
    /\ Js.includes x (String q "") = false
    /\ (pre = EmptyString \/ exists p, pre = p ++ String q "").
Proof.
  intros H. exact (splitAux_single_last q s EmptyString x eq_refl H).
Qed.

(** ** Country inference *)

Lemma find_Some {A : Type} (p : A -> bool) (l : list A) (x : A) :
  Js.find p l = Some x -> In x l /\ p x = true.
Proof.
  induction l as [|y l IH]; cbn; [discriminate|].
  destruct (p y) eqn:E.
  - intros H. injection H as <-. auto.
  - intros H. destruct (IH H). auto.
Qed.

Lemma find_None {A : Type} (p : A -> bool) (l : list A) :
  Js.find p l = None -> forall x, In x l -> p x = false.
Proof.
  induction l as [|y l IH]; cbn; [intros _ x []|].
  destruct (p y) eqn:E; [discriminate|].
  intros H x [<-|HIn]; [exact E | now apply IH].
Qed.

(** The three answers of [inferCountry]. *)
Lemma inferCountry_answer (location : string) :
  match inferCountry location with
  | Some country =>
      (exists name : string,
          In name countries
          /\ Js.includes (Js.toLowerCase location) name = true
          /\ country = titleCased name)
      \/ ((forall name : string,
              In name countries ->
              Js.includes (Js.toLowerCase location) name = false)
          /\ exists pre last : string,
               location = pre ++ last
               /\ Js.includes last "," = false
               /\ (pre = EmptyString \/ exists p, pre = p ++ ",")
               /\ country = Js.trim last)
  | None =>
      forall name : string,
        In name countries ->
        Js.includes (Js.toLowerCase location) name = false
  end.
Proof.
  unfold inferCountry. cbv zeta.
  destruct (Js.find _ countries) as [name|] eqn:F.
  - left. apply find_Some in F. destruct F as [HIn Hocc].
    exists name. auto.
  - pose proof (find_None _ _ F) as Hnone. cbv beta in Hnone.
    destruct (Re.test lastSegmentRe location); [|exact Hnone].
    destruct (Js.pop (Js.split location ",")) as [last|] eqn:P;
      cbn [option_map]; [|exact Hnone].
    right. split; [exact Hnone|].
    destruct (split_single_last _ _ _ P) as [pre [E [I Q]]].
    exists pre, last. auto.
Qed.

(** X9 -- what [inferCountry] answers: the capitalised form of a listed
    country name that occurs in the lower-cased location; or, when no
    listed name occurs, the trimmed text after the last comma; or
    nothing, and then no listed name occurs either. *)
Theorem inferCountry_cases (location : string) :
  match inferCountry location with
  | Some country =>
      (exists name : string,
          In name countries
          /\ Js.includes (Js.toLowerCase location) name = true
          /\ country = titleCased name)
      \/ ((forall name : string,
              In name countries ->
              Js.includes (Js.toLowerCase location) name = false)
          /\ exists pre last : string,
               location = pre ++ last
               /\ Js.includes last "," = false
               /\ (pre = EmptyString \/ exists p, pre = p ++ ",")
               /\ country = Js.trim last)
  | None =>
      forall name : string,
        In name countries ->
        Js.includes (Js.toLowerCase location) name = false
  end.
Proof.
  exact (inferCountry_answer location).
Qed.

(** ** Markdown job parser, further *)

Lemma filterMap_In {A B : Type} (f : A -> option B) (l : list A) (y : B) :
  In y (filterMap f l) -> exists x, In x l /\ f x = Some y.
Proof.
  induction l as [|x l IH]; cbn [filterMap]; [intros []|].
  destruct (f x) as [z|] eqn:E.
  - intros [<-|H].
    + exists x. split; [now left | exact E].
    + destruct (IH H) as [x' [HIn Hx']]. exists x'. split; [now right | exact Hx'].
  - intros H. destruct (IH H) as [x' [HIn Hx']].
    exists x'. split; [now right | exact Hx'].
Qed.

Lemma Forall_tl {A : Type} (P : A -> Prop) (l : list A) :
  Forall P l -> Forall P (tl l).
Proof.
  intros H. destruct H; [constructor | assumption].
Qed.

Lemma parseBlock_parsedFor (search : SearchConfig.t) (block : string)
      (raw : RawJob.t) :
  parseBlock search block = Some raw -> parsedFor search raw.
Proof.
  unfold parseBlock.
  destruct (Re.exec titleRe block) as [titleMatch|]; [|discriminate].
  destruct (negb (Js.includes (Re.group 2 titleMatch) "linkedin.com/jobs/view"))
    eqn:U; [discriminate|].
  destruct (Re.exec companyRe block) as [companyMatch|]; [|discriminate].
  intros H. injection H as <-. unfold parsedFor. cbn.
  apply negb_false_iff in U.
  repeat split; try assumption; try discriminate.
  apply Forall_tl, Forall_forall. intros tag HIn.
  apply filter_In in HIn. destruct HIn as [_ N].
  destruct tag; [discriminate N | discriminate].
Qed.

(** The listings of [parseMarkdown] are [parsedFor] its search. *)
Lemma parseMarkdown_parsedFor (markdown : string) (search : SearchConfig.t)
        (raw : RawJob.t) :
  In raw (parseMarkdown markdown search) -> parsedFor search raw.
Proof.
  unfold parseMarkdown.
  destruct (Js.pop (Js.split markdown SENTINEL)) as [[|c cleaned]|];
    try (intros []).
  unfold parseCleaned. intros H.
  apply filterMap_In in H. destruct H as [block [_ H]].
  exact (parseBlock_parsedFor search block raw H).
Qed.

(** X10 -- every listing that [parseMarkdown] returns carries the
    search it was parsed for, a job URL that holds
    "linkedin.com/jobs/view", a company URL and a posted text, meta tags
    that are not empty, and as its country the one inferred from its
    location or else the search's. *)
Theorem parseMarkdown_listings (markdown : string) (search : SearchConfig.t)
        (raw : RawJob.t) :
  In raw (parseMarkdown markdown search) -> parsedFor search raw.
Proof.
  exact (parseMarkdown_parsedFor markdown search raw).
Qed.

Lemma parseMarkdown_listings_witness :
  parsedFor belgiumCap2 (sampleRaw "Content Creator" "2").
Proof.
  apply (parseMarkdown_listings threeListings).
  vm_compute. tauto.
Defined.

(** ** Search orchestrator, further *)

Lemma visaOrFallback_result (jobUrl : string) (w : World) :
  visaResult (fst (visaOrFallback jobUrl w)).
Proof.
  unfold visaOrFallback, detectVisa.
  destruct (fetchText ("https://r.jina.ai/" ++ jobUrl) w) as [[text|e] w'];
    cbn [fst].
  - right. now exists text.
  - now left.
Qed.

(** The two ways an iteration over a listing can end: the map is left
    as it is, or the listing passed the filters and its record is
    appended. *)
Lemma processListing_cases (search : SearchConfig.t) (raw : RawJob.t)
      (JOBS : JobMap.t) (w : World) :
  (snd (fst (processListing search raw JOBS w)) = JOBS
   /\ fst (fst (processListing search raw JOBS w)) <> Return)
  \/ exists visaInfo : VisaInfo.t,
       acceptable search raw = true
       /\ JobMap.has JOBS (canonicalUrl (RawJob.jobUrl raw)) = false
       /\ (JobMap.size JOBS < 200)%Z
       /\ visaResult visaInfo
       /\ snd (fst (processListing search raw JOBS w)) =
          (JOBS ++ [(canonicalUrl (RawJob.jobUrl raw),
                     makeEntry raw visaInfo)])%list
       /\ fst (fst (processListing search raw JOBS w)) =
          if (SearchConfig.maxJobs search <=?
              countByCountry
                (JOBS ++ [(canonicalUrl (RawJob.jobUrl raw),
                           makeEntry raw visaInfo)])%list
                (SearchConfig.country search))%Z
          then Return else Continue.
Proof.
  destruct (skipped search JOBS raw) eqn:Hskip.
  - left. unfold processListing. rewrite Hskip. cbn. split; [auto|discriminate].
  - destruct (Z.ltb_spec (JobMap.size JOBS) 200) as [Hsize|Hsize].
    + right.
      pose proof (visaOrFallback_result (RawJob.jobUrl raw) (delay 800 w)) as V.
      destruct (visaOrFallback (RawJob.jobUrl raw) (delay 800 w))
        as [visaInfo w'] eqn:E.
      cbn [fst] in V.
      rewrite (processListing_accepted _ _ _ _ _ _ Hskip Hsize E).
      apply skipped_false in Hskip. destruct Hskip as [Hacc Habs].
      exists visaInfo. rewrite (set_absent _ _ _ Habs), Z.geb_leb.
      cbn [fst snd]. repeat split; auto.
    + left. unfold processListing. rewrite Hskip.
      assert (G : (JobMap.size JOBS >=? 200)%Z = true)
        by (rewrite Z.geb_leb; apply Z.leb_le; exact Hsize).
      rewrite G. cbn. split; [auto|discriminate].
Qed.

Section SearchInvariant.

Variable search : SearchConfig.t.

(** [I] holds while the search goes on, [Q] when it has ended. *)
Variables I Q : JobMap.t -> Prop.

Hypothesis I_Q : forall JOBS : JobMap.t, I JOBS -> Q JOBS.

Hypothesis accept :
  forall (JOBS : JobMap.t) (raw : RawJob.t) (visaInfo : VisaInfo.t),
    I JOBS ->
    parsedFor search raw ->
    acceptable search raw = true ->
    JobMap.has JOBS (canonicalUrl (RawJob.jobUrl raw)) = false ->
    (JobMap.size JOBS < 200)%Z ->
    visaResult visaInfo ->
    ((countByCountry
        (JOBS ++ [(canonicalUrl (RawJob.jobUrl raw), makeEntry raw visaInfo)])%list
        (SearchConfig.country search) < SearchConfig.maxJobs search)%Z ->
     I (JOBS ++ [(canonicalUrl (RawJob.jobUrl raw), makeEntry raw visaInfo)])%list)
    /\ ((SearchConfig.maxJobs search <=
         countByCountry
           (JOBS ++ [(canonicalUrl (RawJob.jobUrl raw), makeEntry raw visaInfo)])%list
           (SearchConfig.country search))%Z ->
        Q (JOBS ++ [(canonicalUrl (RawJob.jobUrl raw), makeEntry raw visaInfo)])%list).

Lemma processListing_invariant (raw : RawJob.t) (JOBS : JobMap.t) (w : World) :
  I JOBS ->
  parsedFor search raw ->
  match processListing search raw JOBS w with
  | (Return, JOBS', _) => Q JOBS'
  | (_, JOBS', _) => I JOBS'
  end.
Proof.
  intros HI Hparsed.
  destruct (processListing_cases search raw JOBS w)
    as [[E N]|[v [Hacc [Habs [Hsize [Hv [E C]]]]]]];
    destruct (processListing search raw JOBS w) as [[c JOBS'] w'];
    cbn [fst snd] in *; subst JOBS'.
  - destruct c; [exact HI | exact HI | congruence].
  - destruct (accept JOBS raw v HI Hparsed Hacc Habs Hsize Hv) as [AI AQ].
    destruct (Z.leb_spec (SearchConfig.maxJobs search)
                (countByCountry
                   (JOBS ++ [(canonicalUrl (RawJob.jobUrl raw),
                              makeEntry raw v)])%list
                   (SearchConfig.country search))) as [L|L];
      subst c; auto.
Qed.

Lemma processListings_invariant (parsed : list RawJob.t) :
  forall (JOBS : JobMap.t) (w : World),
    I JOBS ->
    Forall (parsedFor search) parsed ->
    match processListings search parsed JOBS w with
    | (Return, JOBS', _) => Q JOBS'
    | (_, JOBS', _) => I JOBS'
    end.
Proof.
  induction parsed as [|raw rest IH]; intros JOBS w HI Hall.
  - exact HI.
  - inversion Hall as [|? ? Hraw Hrest]; subst.
    cbn [processListings].
    pose proof (processListing_invariant raw JOBS w HI Hraw) as H.
    destruct (processListing search raw JOBS w) as [[[] JOBS'] w'];
      [now apply IH | exact H | exact H].
Qed.

Lemma processPages_invariant (fuel : nat) :
  forall (start : Z) (JOBS : JobMap.t) (w : World),
    I JOBS -> Q (fst (processPages fuel search start JOBS w)).
Proof.
  induction fuel as [|fuel IH]; intros start JOBS w HI; [now apply I_Q|].
  cbn [processPages].
  destruct (start <=? MAX_START)%Z; [|now apply I_Q].
  destruct (fetchText (searchUrl search start) w) as [[text|e] w1];
    [|now apply I_Q].
  destruct (negb (Js.includes text SENTINEL)); [now apply I_Q|].
  assert (Hall : Forall (parsedFor search) (parseMarkdown text search)).
  { apply Forall_forall. intros raw. apply parseMarkdown_parsedFor. }
  destruct (parseMarkdown text search) as [|raw parsed]; [now apply I_Q|].
  pose proof (processListings_invariant (raw :: parsed) JOBS w1 HI Hall) as H.
  destruct (processListings search (raw :: parsed) JOBS w1)
    as [[[] JOBS'] w2]; [now apply IH | now apply IH | exact H].
Qed.

Lemma processSearch_invariant (JOBS : JobMap.t) (w : World) :
  I JOBS -> Q (fst (processSearch search JOBS w)).
Proof. apply processPages_invariant. Qed.

End SearchInvariant.

(** An invariant that every search keeps is kept by the run. *)
Lemma runSearches_invariant (R : JobMap.t -> Prop)
      (searches : list SearchConfig.t) :
  (forall (search : SearchConfig.t) (JOBS : JobMap.t) (raw : RawJob.t)
          (visaInfo : VisaInfo.t),
      In search searches ->
      R JOBS ->
      parsedFor search raw ->
      acceptable search raw = true ->
      JobMap.has JOBS (canonicalUrl (RawJob.jobUrl raw)) = false ->
      (JobMap.size JOBS < 200)%Z ->
      visaResult visaInfo ->
      R (JOBS ++ [(canonicalUrl (RawJob.jobUrl raw),
                   makeEntry raw visaInfo)])%list) ->
  forall (JOBS : JobMap.t) (w : World),
    R JOBS -> R (fst (runSearches searches JOBS w)).
Proof.
  induction searches as [|search rest IH]; intros Hadd JOBS w HR; [exact HR|].
  assert (Hrest : forall (s : SearchConfig.t) (J : JobMap.t) (raw : RawJob.t)
                         (v : VisaInfo.t),
             In s rest -> R J -> parsedFor s raw -> acceptable s raw = true ->
             JobMap.has J (canonicalUrl (RawJob.jobUrl raw)) = false ->
             (JobMap.size J < 200)%Z -> visaResult v ->
             R (J ++ [(canonicalUrl (RawJob.jobUrl raw), makeEntry raw v)])%list).
  { intros s J raw v HIn. apply Hadd. now right. }
  cbn [runSearches].
  destruct (countByCountry _ _ >=? _)%Z; [now apply IH|].
  assert (H : R (fst (processSearch search JOBS w))).
  { apply (processSearch_invariant search R R); [auto | | exact HR].
    intros J raw v HJ Hp Ha Hh Hs Hv.
    assert (T : R (J ++ [(canonicalUrl (RawJob.jobUrl raw), makeEntry raw v)])%list)
      by (apply (Hadd search); auto; now left).
    auto. }
  destruct (processSearch search JOBS w) as [JOBS' w'].
  now apply IH.
Qed.

Lemma runSearches_storedBy (searches : list SearchConfig.t) (w : World) :
  Forall (storedBy searches)
         (JobMap.values (fst (runSearches searches JobMap.empty w))).
Proof.
  apply (runSearches_invariant
           (fun J => Forall (storedBy searches) (JobMap.values J))).
  - intros search J raw v HIn HJ Hp Ha _ _ Hv.
    rewrite values_app. apply Forall_app. split; [exact HJ|].
    constructor; [|constructor].
    exists search, raw, v. auto.
  - constructor.
Qed.

(** X11 -- every record of a run passed the filters of one of its
    searches: its title holds a required keyword and no excluded one,
    neither the title nor the location or the meta tags say "remote",
    the company is not the blocked one, and the record's country
    contains that search's country, letter case aside; the record bears
    that search's label and keywords. *)
Theorem stored_records_passed_filters (searches : list SearchConfig.t)
        (w : World) (e : JobEntry.t) :
  In e (JobMap.values (fst (runSearches searches JobMap.empty w))) ->
  exists search : SearchConfig.t,
    In search searches
    /\ JobEntry.searchLabel e = SearchConfig.label search
    /\ JobEntry.searchKeywords e = SearchConfig.keywords search
    /\ isRelevantTitle (JobEntry.title e) = true
    /\ Js.includes (Js.toLowerCase (JobEntry.title e)) "remote" = false
    /\ isRemote (JobEntry.meta e) (JobEntry.location e) = false
    /\ Js.includes (Js.toLowerCase (JobEntry.company e)) "twine" = false
    /\ Js.includes (Js.toLowerCase (JobEntry.country e))
                   (Js.toLowerCase (SearchConfig.country search)) = true.
Proof.
  intros HIn.
  pose proof (runSearches_storedBy searches w) as H.
  rewrite Forall_forall in H.
  destruct (H e HIn) as [search [raw [v [Hs [Hp [Ha [_ ->]]]]]]].
  destruct Hp as [Hsearch _].
  exists search. cbn [makeEntry JobEntry.searchLabel JobEntry.searchKeywords
                      JobEntry.title JobEntry.meta JobEntry.location
                      JobEntry.company JobEntry.country].
  rewrite Hsearch. unfold acceptable in Ha.
  repeat (apply andb_true_iff in Ha; destruct Ha as [Ha ?]).
  repeat match goal with
         | H : negb _ = true |- _ => apply negb_true_iff in H
         end.
  repeat split; assumption.
Qed.

Lemma stored_records_passed_filters_witness :
  isRelevantTitle (JobEntry.title firstStored) = true
  /\ JobEntry.country firstStored = "Belgium".
Proof.
  destruct (stored_records_passed_filters [belgiumCap2] threeListingsWorld
              firstStored) as [search [_ [_ [_ [H _]]]]].
  - vm_compute. left. reflexivity.
  - split; [exact H | vm_compute; reflexivity].
Defined.

Lemma classifyVisa_evidence (text : string) :
  match VisaInfo.evidence (classifyVisa text) with
  | Some evidence => (String.length evidence <= 360)%nat
  | None => True
  end.
Proof.
  unfold classifyVisa. cbv zeta.
  set (body := Js.orElse (Js.pop (Js.split text SENTINEL)) text).
  destruct (Re.exec positiveRe (Js.toLowerCase body)) as [m|];
    [|destruct (Re.exec negativeRe (Js.toLowerCase body)) as [m|];
      [|destruct (Re.exec permitRe (Js.toLowerCase body)) as [m|]]];
    cbn [VisaInfo.evidence]; try exact I;
    pose proof (extractEvidence_length body (Re.whole m)) as B;
    destruct (extractEvidence body (Re.whole m)); try exact I; apply B.
Qed.

(** X12 -- every record of a run is a complete one: the source is
    "LinkedIn", the posted label is not empty, the reasons begin with
    "Matches <search label>" and hold at most ten reasons without
    repeats, the company URL is there, no meta tag is empty, and the
    visa evidence, when there is one, has at most 360 code units. *)
Theorem stored_records_complete (searches : list SearchConfig.t)
        (w : World) (e : JobEntry.t) :
  In e (JobMap.values (fst (runSearches searches JobMap.empty w))) ->
  JobEntry.source e = "LinkedIn"
  /\ JobEntry.posted e <> EmptyString
  /\ (exists rest : list string,
         JobEntry.matchReasons e = ("Matches " ++ JobEntry.searchLabel e) :: rest)
  /\ NoDup (JobEntry.matchReasons e)
  /\ (List.length (JobEntry.matchReasons e) <= 10)%nat
  /\ JobEntry.companyUrl e <> None
  /\ Forall (fun tag => tag <> EmptyString) (JobEntry.meta e)
  /\ match Visa.evidence (JobEntry.visa e) with
     | Some evidence => (String.length evidence <= 360)%nat
     | None => True
     end.
Proof.
  intros HIn.
  pose proof (runSearches_storedBy searches w) as H.
  rewrite Forall_forall in H.
  destruct (H e HIn) as [search [raw [v [_ [Hp [_ [Hv ->]]]]]]].
  destruct Hp as [_ [_ [_ [Hcompany [_ Htags]]]]].
  destruct (buildMatchReasons_head raw (VisaInfo.detailText v))
    as [Hhead [Hnodup Hlen]].
  cbn [makeEntry JobEntry.source JobEntry.posted JobEntry.matchReasons
       JobEntry.searchLabel JobEntry.companyUrl JobEntry.meta JobEntry.visa
       Visa.evidence].
  repeat split; try assumption; try lia.
  - unfold postedLabel. destruct (RawJob.postedText raw) as [[|c s]|];
      discriminate.
  - destruct Hv as [->|[text ->]]; [exact I | apply classifyVisa_evidence].
Qed.

Lemma stored_records_complete_witness :
  JobEntry.source firstStored = "LinkedIn"
  /\ NoDup (JobEntry.matchReasons firstStored).
Proof.
  destruct (stored_records_complete [belgiumCap2] threeListingsWorld
              firstStored) as [Hsource [_ [_ [Hnodup _]]]].
  - vm_compute. left. reflexivity.
  - split; assumption.
Defined.

(** X13 -- the map never grows beyond 200 records: a run that starts
    with at most 200 ends with at most 200. *)
Theorem runSearches_global_cap (searches : list SearchConfig.t)
        (JOBS : JobMap.t) (w : World) :
  (JobMap.size JOBS <= 200)%Z ->
  (JobMap.size (fst (runSearches searches JOBS w)) <= 200)%Z.
Proof.
  apply (runSearches_invariant (fun J => (JobMap.size J <= 200)%Z)).
  intros search J raw v _ _ _ _ _ Hsize _.
  unfold JobMap.size in *. rewrite length_app. cbn [List.length]. lia.
Qed.

Lemma runSearches_global_cap_witness :
  (JobMap.size (fst (runSearches SEARCHES JobMap.empty threeListingsWorld))
   <= 200)%Z.
Proof.
  apply (runSearches_global_cap SEARCHES JobMap.empty threeListingsWorld).
  cbn. lia.
Defined.

(** X14 -- a run only appends: the records that were in the map are
    still there at the end, unchanged and in the same order, before the
    ones that were added. *)
Theorem runSearches_appends (searches : list SearchConfig.t)
        (JOBS : JobMap.t) (w : World) :
  exists added : JobMap.t,
    fst (runSearches searches JOBS w) = (JOBS ++ added)%list.
Proof.
  apply (runSearches_invariant
           (fun J => exists added : JobMap.t, J = (JOBS ++ added)%list)).
  - intros search J raw v _ [added ->] _ _ _ _ _.
    exists (added ++ [(canonicalUrl (RawJob.jobUrl raw), makeEntry raw v)])%list.
    now rewrite app_assoc.
  - exists []. now rewrite app_nil_r.
Qed.

Lemma countByCountry_snoc (JOBS : JobMap.t) (k : string) (e : JobEntry.t)
      (country : string) :
  countByCountry (JOBS ++ [(k, e)])%list country =
  (countByCountry JOBS country + if inCountry country e then 1 else 0)%Z.
Proof.
  rewrite !countByCountry_filter, values_app, filter_app, length_app.
  cbn [JobMap.values map filter snd].
  destruct (inCountry country e); cbn [List.length]; lia.
Qed.

(** X15 -- a search that starts below its country's cap never takes the
    count for that country beyond the cap. *)
Theorem processSearch_within_cap (search : SearchConfig.t) (JOBS : JobMap.t)
        (w : World) :
  (countByCountry JOBS (SearchConfig.country search)
   < SearchConfig.maxJobs search)%Z ->
  (countByCountry (fst (processSearch search JOBS w))
                  (SearchConfig.country search)
   <= SearchConfig.maxJobs search)%Z.
Proof.
  apply (processSearch_invariant search
           (fun J => (countByCountry J (SearchConfig.country search)
                      < SearchConfig.maxJobs search)%Z)
           (fun J => (countByCountry J (SearchConfig.country search)
                      <= SearchConfig.maxJobs search)%Z)).
  - intros J H. lia.
  - intros J raw v HJ _ _ _ _ _. rewrite countByCountry_snoc.
    split; [auto|]. destruct (inCountry _ _); lia.
Qed.

Lemma processSearch_within_cap_witness :
  (countByCountry (fst (processSearch belgiumCap2 JobMap.empty
                          threeListingsWorld)) "Belgium" <= 2)%Z.
Proof.
  apply (processSearch_within_cap belgiumCap2 JobMap.empty threeListingsWorld).
  vm_compute. reflexivity.
Defined.

(** ** The caps of a whole run *)

Lemma startsWith_refl (s : string) : Js.startsWith s s = true.
Proof.
  apply startsWith_iff. exists EmptyString. now rewrite append_empty_r.
Qed.

Lemma includes_refl (s : string) : Js.includes s s = true.
Proof. apply includes_startsWith, startsWith_refl. Qed.

Lemma fold_max_ge (l : list Z) :
  (0 <= fold_right Z.max 0 l)%Z
  /\ forall x, In x l -> (x <= fold_right Z.max 0 l)%Z.
Proof.
  induction l as [|y l [IH0 IH]]; cbn [fold_right].
  - split; [lia | intros x []].
  - split; [lia|]. intros x [<-|H]; [lia|]. specialize (IH x H). lia.
Qed.

Lemma capOf_ge (searches : list SearchConfig.t) (s : SearchConfig.t) :
  In s searches ->
  (SearchConfig.maxJobs s <= capOf searches (SearchConfig.country s))%Z.
Proof.
  intros H. unfold capOf. apply (proj2 (fold_max_ge _)). apply in_map.
  apply filter_In. split; [exact H | apply String.eqb_refl].
Qed.

Lemma capOf_nonneg (searches : list SearchConfig.t) (country : string) :
  (0 <= capOf searches country)%Z.
Proof. unfold capOf. exact (proj1 (fold_max_ge _)). Qed.

Lemma countryNames_In (searches : list SearchConfig.t) (country : string) :
  In country (countryNames searches) <->
  exists s, In s searches /\ SearchConfig.country s = country.
Proof.
  unfold countryNames. rewrite nodup_In, in_map_iff.
  split; intros [s [A B]]; exists s; auto.
Qed.

(** Raising one of the summands by one raises the sum by one. *)
Lemma sumOver_bump (f f' : string -> Z) (target : string) (names : list string) :
  NoDup names ->
  (forall name, In name names ->
                f' name = (f name + if String.eqb name target then 1 else 0)%Z) ->
  sumOver f' names =
  (sumOver f names + if in_dec string_dec target names then 1 else 0)%Z.
Proof.
  intros Hnd. induction Hnd as [|name names Hnotin Hnd IH]; intros Hf.
  - reflexivity.
  - cbn [sumOver fold_right]. fold (sumOver f' names). fold (sumOver f names).
    rewrite IH by (intros n Hn; apply Hf; now right).
    rewrite (Hf name (or_introl eq_refl)).
    destruct (String.eqb_spec name target) as [->|N].
    + destruct (in_dec string_dec target names) as [Y|_]; [contradiction|].
      destruct (in_dec string_dec target (target :: names)) as [_|N'];
        [lia | elim N'; now left].
    + destruct (in_dec string_dec target names) as [Y|Y];
        destruct (in_dec string_dec target (name :: names)) as [Y'|Y'];
        try lia.
      * elim Y'. now right.
      * destruct Y' as [E|E]; [congruence | contradiction].
Qed.

Section Separated.

Variable searches : list SearchConfig.t.
Hypothesis Hsep : separated searches.

(** A listing accepted by one of the searches is filed under exactly
    that search's country. *)
Lemma accepted_country (s : SearchConfig.t) (raw : RawJob.t) :
  In s searches ->
  parsedFor s raw ->
  acceptable s raw = true ->
  RawJob.countryGuess raw = SearchConfig.country s.
Proof.
  intros Hs Hp Ha.
  destruct Hsep as [H1 [H2 _]].
  destruct Hp as [_ [_ [Hguess _]]].
  assert (Hocc : Js.includes (Js.toLowerCase (RawJob.countryGuess raw))
                   (Js.toLowerCase (SearchConfig.country s)) = true).
  { unfold acceptable in Ha. apply andb_true_iff in Ha. apply Ha. }
  rewrite Hguess in *.
  pose proof (inferCountry_answer (RawJob.locationLine raw)) as C.
  destruct (inferCountry (RawJob.locationLine raw)) as [c|];
    cbn [Js.orElse] in *; [|reflexivity].
  destruct C as [[name [Hname [_ ->]]]|[Hnone [pre [last [E [_ [_ ->]]]]]]].
  - now apply H2.
  - exfalso.
    destruct (trim_inside last) as [a [b Et]].
    assert (T : Js.includes (Js.toLowerCase (RawJob.locationLine raw))
                  (Js.toLowerCase (SearchConfig.country s)) = true).
    { rewrite E, Et.
      replace (pre ++ a ++ Js.trim last ++ b)
        with ((pre ++ a) ++ Js.trim last ++ b)
        by (now rewrite append_assoc).
      now apply includes_lower_inside. }
    rewrite (Hnone _ (H1 s Hs)) in T. discriminate T.
Qed.

(** For the countries of the searches, counting by containment is
    counting by equality. *)
Lemma inCountry_separated (country : string) (s : SearchConfig.t)
      (e : JobEntry.t) :
  In country (countryNames searches) ->
  In s searches ->
  JobEntry.country e = SearchConfig.country s ->
  inCountry country e = String.eqb country (SearchConfig.country s).
Proof.
  intros Hc Hs He. unfold inCountry. rewrite He.
  apply countryNames_In in Hc. destruct Hc as [s' [Hs' <-]].
  destruct Hsep as [_ [_ H3]].
  destruct (String.eqb_spec (SearchConfig.country s') (SearchConfig.country s))
    as [->|N].
  - apply includes_refl.
  - destruct (Js.includes _ _) eqn:I; [|reflexivity].
    elim N. symmetry. now apply (H3 s' s).
Qed.

Lemma processSearch_withinCaps (s : SearchConfig.t) (JOBS : JobMap.t)
      (w : World) :
  In s searches ->
  withinCaps searches JOBS ->
  (countByCountry JOBS (SearchConfig.country s) < SearchConfig.maxJobs s)%Z ->
  withinCaps searches (fst (processSearch s JOBS w)).
Proof.
  intros Hs [Hcaps Hsize] Hbelow.
  apply (processSearch_invariant s
           (fun J =>
              (forall country, In country (countryNames searches) ->
                 country <> SearchConfig.country s ->
                 (countByCountry J country <= capOf searches country)%Z)
              /\ (countByCountry J (SearchConfig.country s)
                  < SearchConfig.maxJobs s)%Z
              /\ JobMap.size J
                 = sumOver (countByCountry J) (countryNames searches))
           (withinCaps searches)).
  - intros J [Ho [Hb Hz]]. split; [|exact Hz].
    intros country Hc.
    destruct (string_dec country (SearchConfig.country s)) as [->|N].
    + pose proof (capOf_ge searches s Hs). lia.
    + now apply Ho.
  - intros J raw v [Ho [Hb Hz]] Hp Ha _ _ _.
    set (e := makeEntry raw v).
    set (k := canonicalUrl (RawJob.jobUrl raw)).
    assert (He : JobEntry.country e = SearchConfig.country s)
      by (apply (accepted_country s raw Hs Hp Ha)).
    assert (Hcount : forall country, In country (countryNames searches) ->
               countByCountry (J ++ [(k, e)])%list country =
               (countByCountry J country
                + if String.eqb country (SearchConfig.country s)
                  then 1 else 0)%Z).
    { intros country Hc. rewrite countByCountry_snoc.
      now rewrite (inCountry_separated country s e Hc Hs He). }
    assert (Hin : In (SearchConfig.country s) (countryNames searches))
      by (apply countryNames_In; now exists s).
    assert (Hz' : JobMap.size (J ++ [(k, e)])%list =
                  sumOver (countByCountry (J ++ [(k, e)])%list)
                          (countryNames searches)).
    { rewrite (sumOver_bump (countByCountry J) _ (SearchConfig.country s));
        [| apply NoDup_nodup | exact Hcount].
      destruct (in_dec string_dec (SearchConfig.country s)
                  (countryNames searches)); [|contradiction].
      unfold JobMap.size in *. rewrite length_app. cbn [List.length]. lia. }
    assert (Hother : forall country, In country (countryNames searches) ->
               country <> SearchConfig.country s ->
               (countByCountry (J ++ [(k, e)])%list country
                <= capOf searches country)%Z).
    { intros country Hc N. rewrite (Hcount country Hc).
      apply String.eqb_neq in N. rewrite N. specialize (Ho country Hc).
      apply String.eqb_neq in N. specialize (Ho N). lia. }
    pose proof (Hcount _ Hin) as Hown. rewrite String.eqb_refl in Hown.
    split.
    + intros Hlt. auto.
    + intros Hge. split; [|exact Hz'].
      intros country Hc.
      destruct (string_dec country (SearchConfig.country s)) as [->|N].
      * pose proof (capOf_ge searches s Hs). lia.
      * now apply Hother.
  - split; [|split]; auto.
Qed.

Lemma runSearches_withinCaps (rest : list SearchConfig.t) :
  incl rest searches ->
  forall (JOBS : JobMap.t) (w : World),
    withinCaps searches JOBS ->
    withinCaps searches (fst (runSearches rest JOBS w)).
Proof.
  induction rest as [|s rest IH]; intros Hincl JOBS w H; [exact H|].
  assert (Hs : In s searches) by (apply Hincl; now left).
  assert (Hrest : incl rest searches)
    by (intros x Hx; apply Hincl; now right).
  cbn [runSearches].
  destruct (countByCountry JOBS (SearchConfig.country s)
            >=? SearchConfig.maxJobs s)%Z eqn:G; [now apply IH|].
  rewrite Z.geb_leb in G. apply Z.leb_gt in G.
  pose proof (processSearch_withinCaps s JOBS w Hs H G) as P.
  destruct (processSearch s JOBS w) as [JOBS' w'].
  now apply IH.
Qed.

Lemma withinCaps_empty : withinCaps searches JobMap.empty.
Proof.
  split.
  - intros country _. cbn. apply capOf_nonneg.
  - cbn [JobMap.size JobMap.empty List.length Z.of_nat].
    induction (countryNames searches) as [|n l IH]; [reflexivity|].
    cbn [sumOver fold_right]. fold (sumOver (countByCountry JobMap.empty) l).
    rewrite <- IH. reflexivity.
Qed.

End Separated.

(** X16 -- when the countries of the searches are names that
    [inferCountry] knows and none contains another, a run keeps every
    cap: for each search the count for its country stays within the
    largest cap set for that country, every record is filed under
    exactly the country of one of the searches, and so the number of
    records is the sum of the per-country counts. *)
Theorem runSearches_within_caps (searches : list SearchConfig.t) (w : World) :
  separated searches ->
  (forall s, In s searches ->
     (countByCountry (fst (runSearches searches JobMap.empty w))
                     (SearchConfig.country s)
      <= capOf searches (SearchConfig.country s))%Z)
  /\ JobMap.size (fst (runSearches searches JobMap.empty w))
     = sumOver (countByCountry (fst (runSearches searches JobMap.empty w)))
               (countryNames searches)
  /\ (forall e,
        In e (JobMap.values (fst (runSearches searches JobMap.empty w))) ->
        exists s, In s searches /\ JobEntry.country e = SearchConfig.country s).
Proof.
  intros Hsep.
  destruct (runSearches_withinCaps searches Hsep searches (incl_refl _)
              JobMap.empty w (withinCaps_empty searches)) as [Hcaps Hsize].
  split; [|split].
  - intros s Hs. apply Hcaps. apply countryNames_In. now exists s.
  - exact Hsize.
  - intros e HIn.
    pose proof (runSearches_storedBy searches w) as H.
    rewrite Forall_forall in H.
    destruct (H e HIn) as [s [raw [v [Hs [Hp [Ha [_ ->]]]]]]].
    exists s. split; [exact Hs|].
    exact (accepted_country searches Hsep s raw Hs Hp Ha).
Qed.

Ltac each_member H :=
  cbn in H;
  repeat (destruct H as [<-|H]); [..|contradiction].

Lemma SEARCHES_separated : separated SEARCHES.
Proof.
  split; [|split].
  - intros s Hs. each_member Hs; vm_compute; tauto.
  - intros name s Hn Hs. each_member Hn; each_member Hs;
      vm_compute; intros H; first [reflexivity | discriminate H].
  - intros s s' Hs Hs'. each_member Hs; each_member Hs';
      vm_compute; intros H; first [reflexivity | discriminate H].
Qed.

Lemma runSearches_within_caps_witness :
  (countByCountry (fst (runSearches SEARCHES JobMap.empty threeListingsWorld))
                  "Belgium" <= 4)%Z.
Proof.
  destruct (runSearches_within_caps SEARCHES threeListingsWorld
              SEARCHES_separated) as [H _].
  apply (H (SearchConfig.mk "Belgium" "Belgium" "digital marketing"
              "Digital Marketing (Belgium)" 4)).
  cbn. tauto.
Defined.

(** X17 -- with the configured searches a run stores at most 4 records
    for Belgium, 4 for Ireland, 5 for Italy, 6 for the Netherlands and
    6 for the United Kingdom, hence 25 at most; every record in the
    output has one of these five names as its country, and [total] is
    the number of [jobs]. *)
Theorem main_configured_caps (localeCompare : string -> string -> Z)
        (w : World) :
  let JOBS := fst (runSearches SEARCHES JobMap.empty w) in
  let out := fst (main localeCompare w) in
  (countByCountry JOBS "Belgium" <= 4)%Z
  /\ (countByCountry JOBS "Ireland" <= 4)%Z
  /\ (countByCountry JOBS "Italy" <= 5)%Z
  /\ (countByCountry JOBS "Netherlands" <= 6)%Z
  /\ (countByCountry JOBS "United Kingdom" <= 6)%Z
  /\ (total out <= 25)%Z
  /\ total out = Z.of_nat (List.length (jobs out))
  /\ forall e, In e (jobs out) ->
               In (JobEntry.country e)
                  ["Belgium"; "Ireland"; "Italy"; "Netherlands";
                   "United Kingdom"].
Proof.
  intros JOBS out.
  destruct (runSearches_withinCaps SEARCHES SEARCHES_separated SEARCHES
              (incl_refl _) JobMap.empty w (withinCaps_empty SEARCHES))
    as [Hcaps Hsize].
  fold JOBS in Hcaps, Hsize.
  assert (B : (countByCountry JOBS "Belgium" <= 4)%Z)
    by (apply (Hcaps "Belgium"); vm_compute; tauto).
  assert (I : (countByCountry JOBS "Ireland" <= 4)%Z)
    by (apply (Hcaps "Ireland"); vm_compute; tauto).
  assert (T : (countByCountry JOBS "Italy" <= 5)%Z)
    by (apply (Hcaps "Italy"); vm_compute; tauto).
  assert (N : (countByCountry JOBS "Netherlands" <= 6)%Z)
    by (apply (Hcaps "Netherlands"); vm_compute; tauto).
  assert (U : (countByCountry JOBS "United Kingdom" <= 6)%Z)
    by (apply (Hcaps "United Kingdom"); vm_compute; tauto).
  destruct (main_jobs_permutation localeCompare w) as [Hperm Htotal].
  fold out in Hperm, Htotal. fold JOBS in Hperm, Htotal.
  repeat split; try assumption.
  - rewrite Htotal, Hsize.
    change (countryNames SEARCHES)
      with ["Belgium"; "Ireland"; "Italy"; "Netherlands"; "United Kingdom"].
    cbn [sumOver fold_right]. lia.
  - unfold out, main.
    destruct (runSearches SEARCHES JobMap.empty w) as [J w']. reflexivity.
  - intros e HIn.
    apply (Permutation_in _ Hperm) in HIn.
    pose proof (runSearches_storedBy SEARCHES w) as H.
    rewrite Forall_forall in H.
    destruct (H e HIn) as [s [raw [v [Hs [Hp [Ha [_ ->]]]]]]].
    cbn [makeEntry JobEntry.country].
    rewrite (accepted_country SEARCHES SEARCHES_separated s raw Hs Hp Ha).
    each_member Hs; cbn; tauto.
Qed.

(** ** Requests and waits of a run *)

Lemma polite_fetch (url : string) (log : list Event) :
  viaProxy url = true -> rested log = true -> polite log = true ->
  polite (Fetch url :: log) = true.
Proof.
  intros U R P. cbn [polite]. now rewrite U, R, P.
Qed.

Lemma fetchTextOn_polite (url : string) (script : list Reply) :
  viaProxy url = true ->
  forall (attempt : Z) (log : list Event),
    rested log = true -> polite log = true ->
    polite (trace (snd (fetchTextOn url attempt script log))) = true.
Proof.
  intros U. induction script as [|reply rest IH]; intros attempt log R P.
  - cbn [fetchTextOn snd trace]. now apply polite_fetch.
  - destruct reply as [response|];
      [|cbn [fetchTextOn snd trace]; now apply polite_fetch].
    pose proof (polite_fetch url log U R P) as F.
    fetch_cases response E B.
    + destruct (attempt >? 4)%Z; [exact F|]. apply IH; [reflexivity | exact F].
    + destruct (attempt >? 4)%Z; [exact F|]. apply IH; [reflexivity | exact F].
    + destruct (ok response); exact F.
Qed.

Lemma fetchText_polite (url : string) (w : World) :
  viaProxy url = true ->
  rested (trace w) = true -> polite (trace w) = true ->
  polite (trace (snd (fetchText url w))) = true.
Proof.
  intros U R P. now apply fetchTextOn_polite.
Qed.

Lemma viaProxy_prefixed (rest : string) :
  viaProxy ("https://r.jina.ai/" ++ rest) = true.
Proof.
  apply startsWith_iff. now exists rest.
Qed.

Lemma viaProxy_searchUrl (search : SearchConfig.t) (start : Z) :
  viaProxy (searchUrl search start) = true.
Proof.
  apply startsWith_iff. unfold searchUrl.
  eexists. cbn [append]. reflexivity.
Qed.

Lemma visaOrFallback_polite (jobUrl : string) (w : World) :
  rested (trace w) = true -> polite (trace w) = true ->
  polite (trace (snd (visaOrFallback jobUrl w))) = true.
Proof.
  intros R P. unfold visaOrFallback, detectVisa.
  pose proof (fetchText_polite ("https://r.jina.ai/" ++ jobUrl) w
                (viaProxy_prefixed jobUrl) R P) as H.
  destruct (fetchText ("https://r.jina.ai/" ++ jobUrl) w) as [[text|e] w'];
    exact H.
Qed.

Lemma processListing_polite (search : SearchConfig.t) (raw : RawJob.t)
      (JOBS : JobMap.t) (w : World) :
  polite (trace w) = true ->
  polite (trace (snd (processListing search raw JOBS w))) = true.
Proof.
  intros P. unfold processListing.
  destruct (skipped search JOBS raw); [exact P|].
  destruct (JobMap.size JOBS >=? 200)%Z; [exact P|].
  pose proof (visaOrFallback_polite (RawJob.jobUrl raw) (delay 800 w)
                eq_refl P) as H.
  destruct (visaOrFallback (RawJob.jobUrl raw) (delay 800 w)) as [v w2].
  destruct (countByCountry _ _ >=? _)%Z; exact H.
Qed.

Lemma processListings_polite (search : SearchConfig.t)
      (parsed : list RawJob.t) :
  forall (JOBS : JobMap.t) (w : World),
    polite (trace w) = true ->
    polite (trace (snd (processListings search parsed JOBS w))) = true.
Proof.
  induction parsed as [|raw rest IH]; intros JOBS w P; [exact P|].
  cbn [processListings].
  pose proof (processListing_polite search raw JOBS w P) as H.
  destruct (processListing search raw JOBS w) as [[[] JOBS'] w'];
    [now apply IH | exact H | exact H].
Qed.

Lemma processPages_polite (search : SearchConfig.t) (fuel : nat) :
  forall (start : Z) (JOBS : JobMap.t) (w : World),
    rested (trace w) = true -> polite (trace w) = true ->
    polite (trace (snd (processPages fuel search start JOBS w))) = true.
Proof.
  induction fuel as [|fuel IH]; intros start JOBS w R P; [exact P|].
  cbn [processPages].
  destruct (start <=? MAX_START)%Z; [|exact P].
  pose proof (fetchText_polite (searchUrl search start) w
                (viaProxy_searchUrl search start) R P) as F.
  destruct (fetchText (searchUrl search start) w) as [[text|e] w1];
    [|exact F].
  destruct (negb (Js.includes text SENTINEL)); [exact F|].
  destruct (parseMarkdown text search) as [|raw parsed]; [exact F|].
  pose proof (processListings_polite search (raw :: parsed) JOBS w1 F) as H.
  destruct (processListings search (raw :: parsed) JOBS w1)
    as [[[] JOBS'] w2]; cbn [snd] in H;
    [apply IH; [reflexivity | exact H]
    | apply IH; [reflexivity | exact H]
    | exact H].
Qed.

Lemma runSearches_polite (searches : list SearchConfig.t) :
  forall (JOBS : JobMap.t) (w : World),
    rested (trace w) = true -> polite (trace w) = true ->
    rested (trace (snd (runSearches searches JOBS w))) = true
    /\ polite (trace (snd (runSearches searches JOBS w))) = true.
Proof.
  induction searches as [|search rest IH]; intros JOBS w R P; [auto|].
  cbn [runSearches].
  destruct (countByCountry _ _ >=? _)%Z; [now apply IH|].
  pose proof (processPages_polite search 3 0 JOBS w R P) as H.
  unfold processSearch.
  destruct (processPages 3 search 0 JOBS w) as [JOBS' w'].
  apply IH; [reflexivity | exact H].
Qed.

(** X18 -- in a run every request goes to the proxy (its URL begins
    with "https://r.jina.ai/"), and no request follows another one
    without a wait in between: retries, detail pages, further pages and
    further searches all come after a [delay]. *)
Theorem main_requests_polite (localeCompare : string -> string -> Z)
        (w : World) :
  rested (trace w) = true ->
  polite (trace w) = true ->
  polite (trace (snd (main localeCompare w))) = true.
Proof.
  intros R P. unfold main.
  pose proof (runSearches_polite SEARCHES JobMap.empty w R P) as [_ H].
  destruct (runSearches SEARCHES JobMap.empty w) as [JOBS w']. exact H.
Qed.

Lemma main_requests_polite_witness :
  polite (trace (snd (main codeUnitCompare threeListingsWorld))) = true.
Proof.
  apply (main_requests_polite codeUnitCompare threeListingsWorld);
    reflexivity.
Defined.

(** ** The job browser *)

Lemma fold_setAdd_In (l : list string) :
  forall (init : list string) (x : string),
    In x (fold_left setAdd l init) <-> In x init \/ In x l.
Proof.
  induction l as [|y l IH]; intros init x; cbn [fold_left].
  - cbn. tauto.
  - rewrite IH, setAdd_In. cbn [In]. intuition congruence.
Qed.

Lemma fold_setAdd_NoDup (l : list string) :
  forall init : list string, NoDup init -> NoDup (fold_left setAdd l init).
Proof.
  induction l as [|y l IH]; intros init H; cbn [fold_left]; [exact H|].
  apply IH. now apply setAdd_NoDup.
Qed.

Lemma codeUnitCompare_total (x y : string) :
  (0 < codeUnitCompare x y)%Z -> (codeUnitCompare y x <= 0)%Z.
Proof.
  unfold codeUnitCompare. rewrite (String.compare_antisym x y).
  destruct (String.compare y x); cbn; lia.
Qed.

Lemma Sorted_strict (l : list string) :
  Sorted (notAfter codeUnitCompare) l ->
  NoDup l ->
  Sorted (fun a b => String.compare a b = Lt) l.
Proof.
  induction 1 as [|x l Hs IH Hd]; intros Hnd; [constructor|].
  inversion Hnd as [|? ? Hx Hl]; subst.
  constructor; [now apply IH|].
  destruct Hd as [|y l Hxy]; constructor.
  unfold notAfter, codeUnitCompare in Hxy.
  destruct (String.compare x y) eqn:E; [|reflexivity|lia].
  apply String.compare_eq_iff in E. subst y. elim Hx. now left.
Qed.

(** X19 -- the country filter offers "All" first and then the
    countries of the jobs, each exactly once, in strictly ascending
    order of their code units. *)
Theorem browserCountries_sorted (jobs : list JobEntry.t) :
  exists rest : list string,
    browserCountries jobs = "All" :: rest
    /\ Sorted (fun a b => String.compare a b = Lt) rest
    /\ NoDup rest
    /\ forall country : string,
         In country rest <->
         exists job, In job jobs /\ JobEntry.country job = country.
Proof.
  unfold browserCountries, distinct.
  set (names := fold_left setAdd (map JobEntry.country jobs) []).
  assert (Hnd : NoDup names) by (apply fold_setAdd_NoDup; constructor).
  pose proof (sort_Permutation string codeUnitCompare names) as Hperm.
  assert (Hnd' : NoDup (sort codeUnitCompare names))
    by (apply (Permutation_NoDup (Permutation_sym Hperm) Hnd)).
  exists (sort codeUnitCompare names).
  split; [reflexivity|]. split; [|split; [exact Hnd'|]].
  - apply Sorted_strict; [|exact Hnd'].
    apply sort_Sorted. exact codeUnitCompare_total.
  - intros country. split.
    + intros H. apply (Permutation_in _ Hperm) in H.
      unfold names in H. apply fold_setAdd_In in H.
      destruct H as [[]|H]. apply in_map_iff in H.
      destruct H as [job [E HIn]]. exists job. auto.
    + intros [job [HIn E]].
      apply (Permutation_in _ (Permutation_sym Hperm)).
      unfold names. apply fold_setAdd_In. right.
      apply in_map_iff. exists job. auto.
Qed.

Lemma filter_all {A : Type} (p : A -> bool) (l : list A) :
  (forall x, In x l -> p x = true) -> filter p l = l.
Proof.
  induction l as [|x l IH]; intros H; cbn [filter]; [reflexivity|].
  rewrite (H x (or_introl eq_refl)). f_equal. apply IH.
  intros y Hy. apply H. now right.
Qed.

(** X20 -- with the country and visa filters on "All" and a query that
    is empty or white space only, the browser shows every job, in the
    order of the document. *)
Theorem filteredJobs_no_filter (jobs : list JobEntry.t) (search : string) :
  Js.trim search = EmptyString ->
  Browser.filteredJobs jobs "All" Browser.AllVisa search = jobs.
Proof.
  intros H. unfold Browser.filteredJobs. apply filter_all.
  intros job _. cbv zeta. unfold Browser.matchesQuery. rewrite H.
  reflexivity.
Qed.

Lemma filteredJobs_no_filter_witness :
  Browser.filteredJobs [northernIrelandJob; firstStored] "All" Browser.AllVisa
    "   "
  = [northernIrelandJob; firstStored].
Proof.
  apply (filteredJobs_no_filter [northernIrelandJob; firstStored] "   ").
  vm_compute. reflexivity.
Defined.

Lemma includes_part (s pre kw post : string) :
  Js.includes s (pre ++ kw ++ post) = true -> Js.includes s kw = true.
Proof.
  intros H. apply includes_iff in H. destruct H as [a [b ->]].
  apply includes_iff. exists (a ++ pre), (post ++ b).
  now rewrite !append_assoc.
Qed.

Lemma matchesQuery_part (job : JobEntry.t) (query query' pre post : string) :
  Js.toLowerCase (Js.trim query)
  = pre ++ Js.toLowerCase (Js.trim query') ++ post ->
  Browser.matchesQuery job query = true ->
  Browser.matchesQuery job query' = true.
Proof.
  unfold Browser.matchesQuery. cbv zeta. intros E. rewrite E.
  set (k := Js.toLowerCase (Js.trim query')).
  destruct (Js.nonEmpty k) eqn:K; [|reflexivity]. cbn [negb].
  assert (N : Js.nonEmpty (pre ++ k ++ post) = true).
  { destruct pre; [|reflexivity]. cbn [append].
    destruct k; [discriminate K | reflexivity]. }
  rewrite N. cbn [negb]. intros H.
  repeat (apply orb_true_iff in H; destruct H as [H|H]).
  - rewrite (includes_part _ _ _ _ H). reflexivity.
  - rewrite (includes_part _ _ _ _ H). now rewrite orb_true_r.
  - rewrite (includes_part _ _ _ _ H). now rewrite !orb_true_r.
  - apply existsb_exists in H. destruct H as [reason [HIn H]].
    assert (X : existsb (fun reason => Js.includes (Js.toLowerCase reason) k)
                  (JobEntry.matchReasons job) = true).
    { apply existsb_exists. exists reason. split; [exact HIn|].
      exact (includes_part _ _ _ _ H). }
    rewrite X. now rewrite !orb_true_r.
Qed.

(** X21 -- shortening the query never hides a job: a job shown for a
    query is shown, under the same country and visa filters, for every
    query whose trimmed, lower-cased text is a part of that of the
    first. *)
Theorem filteredJobs_shorter_query (jobs : list JobEntry.t) (country : string)
        (visa : Browser.VisaChoice) (query query' pre post : string)
        (job : JobEntry.t) :
  Js.toLowerCase (Js.trim query)
  = pre ++ Js.toLowerCase (Js.trim query') ++ post ->
  In job (Browser.filteredJobs jobs country visa query) ->
  In job (Browser.filteredJobs jobs country visa query').
Proof.
  intros E H. unfold Browser.filteredJobs in *.
  apply filter_In in H. destruct H as [HIn H]. apply filter_In.
  split; [exact HIn|]. cbv zeta in *.
  apply andb_true_iff in H. destruct H as [H M]. rewrite H.
  now rewrite (matchesQuery_part job query query' pre post E M).
Qed.

Lemma filteredJobs_shorter_query_witness :
  In firstStored
     (Browser.filteredJobs [northernIrelandJob; firstStored] "Belgium"
        (Browser.Only NotMentioned) "market").
Proof.
  apply (filteredJobs_shorter_query _ _ _ " Marketing Manager " "market"
           EmptyString "ing manager").
  - vm_compute. reflexivity.
  - vm_compute. tauto.
Defined.

(** ** Visa evidence extractor: the shadowed phrase *)

(** X22 -- a detail text that holds "no visa sponsorship", in any
    letter case, is classified [Yes]: the positive pattern finds "visa
    sponsorship" inside the phrase before the negative pattern is
    tried. *)
Theorem classifyVisa_negative_shadowed (text : string) :
  Js.includes
    (Js.toLowerCase (Js.orElse (Js.pop (Js.split text SENTINEL)) text))
    "no visa sponsorship" = true ->
  VisaInfo.status (classifyVisa text) = Yes.
Proof.
  intros H.
  do 3 apply includes_drop_first in H.
  unfold classifyVisa, Re.exec.
  pose proof (positiveRe_found _ H 0%nat None) as P.
  destruct (Re.execFrom positiveRe 0 None _) as [m|]; [reflexivity|].
  now elim P.
Qed.

Lemma classifyVisa_negative_shadowed_witness :
  VisaInfo.status
    (classifyVisa "Please note: NO visa sponsorship for this role.") = Yes.
Proof.
  apply classifyVisa_negative_shadowed. vm_compute. reflexivity.
Defined.
